(** * mini-rate-limiter: token bucket engine and in-memory store

    A shallow embedding of
      - src/algorithms/token-bucket.ts  (class TokenBucket),
      - src/storage/memory.ts           (class MemoryStorage),
      - src/storage/types.ts            (BucketState, StorageAdapter),
      - src/algorithms/types.ts         (RateLimitResult, RateLimiterOptions),
      - src/index.ts                    (class RateLimiter),
      - src/middleware/express.ts       (the Express adapter),
      - the MockStorage of tests/token-bucket.test.ts.

    Numbers.  A JavaScript [number] is modelled as an exact rational [Q]:
    [+ - * /] are the field operations, [Math.floor] and [Math.ceil] are
    [Qfloor] and [Qceiling] (their integer result is kept as a [Z] and
    injected back where the code goes on computing with it), [Math.min] and
    [Math.max] are [Qmin] and [Z.max].  The model agrees with the code where
    no division by zero happens and no rounding of doubles is involved;
    statements that depend on a quotient carry the hypothesis that the
    divisor ([refillInterval], [refillRate]) is positive, as the option type
    of the library documents it.

    Time.  [Date.now()] is an input of every operation ([now]).  One call of
    [check] or [consume] reads the clock once itself and once more inside
    [MemoryStorage.get] / [MemoryStorage.set]; the model hands the same
    instant to all of them (the calls are not interleaved with a clock
    tick), which is the situation of the test suite's fake timers.

    Effects.  The store is threaded explicitly: an operation takes the store
    and returns its result together with the store it leaves behind. *)

From Stdlib Require Import ZArith QArith Qround Qminmax Lqa Lia Bool List String.
From stdpp Require Import base option gmap strings fin_maps.

Open Scope Q_scope.

(** ** Numbers *)

Module Number.

Abbreviation number := Q (only parsing).

(** [a < b] on numbers, as a boolean test. *)
Definition ltb (a b : number) : bool := negb (Qle_bool b a).

(** [a <= b] and [a >= b]. *)
Definition leb (a b : number) : bool := Qle_bool a b.
Definition geb (a b : number) : bool := Qle_bool b a.

(** [Math.floor], [Math.ceil]: integer valued. *)
Definition floor (a : number) : Z := Qfloor a.
Definition ceil (a : number) : Z := Qceiling a.

(** An integer read back as a number. *)
Definition ofZ (z : Z) : number := inject_Z z.

End Number.

Import Number.

(** ** Data model (src/storage/types.ts, src/algorithms/types.ts) *)

Record BucketState := mkBucketState {
  tokens : number;
  lastRefill : number
}.

Record RateLimitResult := mkResult {
  allowed : bool;
  remaining : Z;
  resetAt : number;
  retryAfter : option Z
}.

Record RateLimiterOptions := mkOptions {
  opt_capacity : number;
  opt_refillRate : number;
  opt_refillInterval : number
}.

(** The fields of a [TokenBucket] instance; the [storage] field is the
    store threaded through the operations below. *)
Record TokenBucket := mkTokenBucket {
  capacity : number;
  refillRate : number;
  refillInterval : number;
  ttlMs : number
}.

(** ** The engine (src/algorithms/token-bucket.ts) *)

(** [constructor(options, storage)] *)
Definition TokenBucket_new (options : RateLimiterOptions) : TokenBucket :=
  {| capacity := opt_capacity options;
     refillRate := opt_refillRate options;
     refillInterval := opt_refillInterval options;
     ttlMs := ofZ (ceil ((opt_capacity options / opt_refillRate options)
                          * opt_refillInterval options)) * 2 |}.

Section Engine.

Variable this : TokenBucket.

Definition intervalsElapsed (state : BucketState) (now : number) : Z :=
  let elapsed := now - lastRefill state in
  floor (elapsed / refillInterval this).

Definition calculateTokens (state : BucketState) (now : number) : number :=
  let elapsed := now - lastRefill state in
  let intervalsElapsed := floor (elapsed / refillInterval this) in
  let tokensToAdd := ofZ intervalsElapsed * refillRate this in
  Qmin (capacity this) (tokens state + tokensToAdd).

Definition calculateLastRefill (state : BucketState) (now : number) : number :=
  let elapsed := now - lastRefill state in
  let intervalsElapsed := floor (elapsed / refillInterval this) in
  lastRefill state + ofZ intervalsElapsed * refillInterval this.

Definition calculateResetAt (tokens lastRefill : number) : number :=
  if geb tokens (capacity this) then lastRefill
  else
    let tokensNeeded := capacity this - tokens in
    let intervalsNeeded := ceil (tokensNeeded / refillRate this) in
    lastRefill + ofZ intervalsNeeded * refillInterval this.

Definition calculateRetryAfter (lastRefill now : number) : Z :=
  let nextRefill := lastRefill + refillInterval this in
  Z.max 0 (ceil ((nextRefill - now) / 1000)).

Definition buildResult (allowed : bool) (tokens lastRefill now : number)
  : RateLimitResult :=
  {| allowed := allowed;
     remaining := floor tokens;
     resetAt := calculateResetAt tokens lastRefill;
     retryAfter := if negb allowed
                   then Some (calculateRetryAfter lastRefill now)
                   else None |}.

End Engine.

(** ** The store contract (interface StorageAdapter, src/storage/types.ts)

    Every method gets the clock value at the time of the call as its first
    argument; [get] may change the store (lazy expiry), so it returns the
    store as well. *)

Class StorageAdapter (S : Type) := {
  storage_get : number -> string -> S -> option BucketState * S;
  storage_set : number -> string -> BucketState -> number -> S -> S;
  storage_delete : number -> string -> S -> S
}.

(** ** The reference store (class MemoryStorage, src/storage/memory.ts) *)

Record StoredEntry := mkEntry {
  state : BucketState;
  expiresAt : number
}.

(** The [store] field, a [Map<string, StoredEntry>]. *)
Record MemoryStorage := mkMemory {
  store : gmap string StoredEntry
}.

Module Memory.

Definition empty : MemoryStorage := {| store := ∅ |}.

Definition get (now : number) (key : string) (this : MemoryStorage)
  : option BucketState * MemoryStorage :=
  match store this !! key with
  | None => (None, this)
  | Some entry =>
      if leb (expiresAt entry) now
      then (None, {| store := delete key (store this) |})
      else (Some (state entry), this)
  end.

Definition set (now : number) (key : string) (state : BucketState)
    (ttlMs : number) (this : MemoryStorage) : MemoryStorage :=
  {| store := <[ key := {| state := state; expiresAt := now + ttlMs |} ]>
                (store this) |}.

Definition delete (now : number) (key : string) (this : MemoryStorage)
  : MemoryStorage :=
  {| store := base.delete key (store this) |}.

(** [cleanup()], the body of the periodic sweep. *)
Definition cleanup (now : number) (this : MemoryStorage) : MemoryStorage :=
  {| store := filter (fun kv => leb (expiresAt (snd kv)) now = false)
                (store this) |}.

Definition size (this : MemoryStorage) : nat := base.size (store this).

(** [destroy()]: the table is cleared (the timer is not part of the
    model). *)
Definition destroy (this : MemoryStorage) : MemoryStorage := empty.

End Memory.

#[export] Instance MemoryStorage_adapter : StorageAdapter MemoryStorage := {
  storage_get := Memory.get;
  storage_set := Memory.set;
  storage_delete := Memory.delete
}.

(** ** The store of the engine's test suite (class MockStorage): a plain
    [Map<string, BucketState>] that ignores the TTL. *)

Record MockStorage := mkMock {
  mock_store : gmap string BucketState
}.

Module Mock.

Definition get (now : number) (key : string) (this : MockStorage)
  : option BucketState * MockStorage :=
  (mock_store this !! key, this).

Definition set (now : number) (key : string) (state : BucketState)
    (ttlMs : number) (this : MockStorage) : MockStorage :=
  {| mock_store := <[ key := state ]> (mock_store this) |}.

Definition delete (now : number) (key : string) (this : MockStorage)
  : MockStorage :=
  {| mock_store := base.delete key (mock_store this) |}.

End Mock.

#[export] Instance MockStorage_adapter : StorageAdapter MockStorage := {
  storage_get := Mock.get;
  storage_set := Mock.set;
  storage_delete := Mock.delete
}.

(** ** A store that records the calls made on it

    [Logged S] forwards every call to the store it wraps and appends the
    call to a journal; it is how the statements below speak about "the
    writes performed by a call" for an arbitrary store. *)

Inductive StoreCall :=
| CallGet (key : string)
| CallSet (key : string) (state : BucketState) (ttlMs : number)
| CallDelete (key : string).

Record Logged (S : Type) := mkLogged {
  inner : S;
  calls : list StoreCall
}.
Arguments mkLogged {S} _ _.
Arguments inner {S} _.
Arguments calls {S} _.

#[export] Instance Logged_adapter {S} `{StorageAdapter S}
  : StorageAdapter (Logged S) := {
  storage_get now key l :=
    let '(r, s) := storage_get now key (inner l) in
    (r, mkLogged s (calls l ++ [CallGet key]));
  storage_set now key st ttl l :=
    mkLogged (storage_set now key st ttl (inner l))
             (calls l ++ [CallSet key st ttl]);
  storage_delete now key l :=
    mkLogged (storage_delete now key (inner l))
             (calls l ++ [CallDelete key])
}.

(** The writes of a journal: the states handed to [set], with their TTL. *)
Fixpoint writes (l : list StoreCall) : list (string * BucketState * number) :=
  match l with
  | [] => []
  | CallSet key st ttl :: l' => (key, st, ttl) :: writes l'
  | _ :: l' => writes l'
  end.

(** ** The operations of the engine *)

Section Operations.

Context {S : Type} `{StorageAdapter S}.
Variable this : TokenBucket.

Definition getOrCreateState (key : string) (now : number) (storage : S)
  : BucketState * S :=
  match storage_get now key storage with
  | (Some existing, storage') => (existing, storage')
  | (None, storage') =>
      ({| tokens := capacity this; lastRefill := now |}, storage')
  end.

Definition check (now : number) (key : string) (storage : S)
  : RateLimitResult * S :=
  let '(state, storage1) := getOrCreateState key now storage in
  let tokens := calculateTokens this state now in
  let lastRefill := calculateLastRefill this state now in
  (buildResult this (geb tokens 1) tokens lastRefill now, storage1).

Definition consume (now : number) (key : string) (tokens : number)
    (storage : S) : RateLimitResult * S :=
  let '(state, storage1) := getOrCreateState key now storage in
  let currentTokens := calculateTokens this state now in
  let lastRefill := calculateLastRefill this state now in
  if ltb currentTokens tokens
  then (buildResult this false currentTokens lastRefill now, storage1)
  else
    let newTokens := currentTokens - tokens in
    let storage2 :=
      storage_set now key
        {| tokens := newTokens; lastRefill := lastRefill |}
        (ttlMs this) storage1 in
    (buildResult this true newTokens lastRefill now, storage2).

End Operations.

(** ** The facade (class RateLimiter, src/index.ts) *)

(** How the evaluation of a [new] expression ends: with the object, or with
    a thrown error. *)
Inductive completion (A : Type) :=
| Normal (value : A)
| Throw (message : string).
Arguments Normal {A} _.
Arguments Throw {A} _.

(** [RateLimiterConfig extends RateLimiterOptions] by an optional custom
    store ([storageOptions] only sets the period of the sweep). *)
Record RateLimiterConfig (S : Type) := mkConfig {
  options : RateLimiterOptions;
  cfg_storage : option S
}.
Arguments mkConfig {S} _ _.
Arguments options {S} _.
Arguments cfg_storage {S} _.

(** The limiter's store is the custom one or a [MemoryStorage] of its own. *)
#[export] Instance sum_adapter {A B} `{StorageAdapter A} `{StorageAdapter B}
  : StorageAdapter (A + B) := {
  storage_get now key s :=
    match s with
    | inl a => let '(r, a') := storage_get now key a in (r, inl a')
    | inr b => let '(r, b') := storage_get now key b in (r, inr b')
    end;
  storage_set now key st ttl s :=
    match s with
    | inl a => inl (storage_set now key st ttl a)
    | inr b => inr (storage_set now key st ttl b)
    end;
  storage_delete now key s :=
    match s with
    | inl a => inl (storage_delete now key a)
    | inr b => inr (storage_delete now key b)
    end
}.

Record RateLimiter (S : Type) := mkLimiter {
  algorithm : TokenBucket;
  storage : S + MemoryStorage;
  ownsStorage : bool
}.
Arguments mkLimiter {S} _ _ _.
Arguments algorithm {S} _.
Arguments storage {S} _.
Arguments ownsStorage {S} _.

(** [constructor(config)].  Its body picks the store and builds the
    [TokenBucket]; neither it nor the constructor of [TokenBucket] has a
    [throw] statement, so every path ends in [Normal]. *)
Definition RateLimiter_new {S} (config : RateLimiterConfig S)
  : completion (RateLimiter S) :=
  let '(storage, ownsStorage) :=
    match cfg_storage config with
    | Some s => (inl s, false)
    | None => (inr Memory.empty, true)
    end in
  Normal {| algorithm :=
              TokenBucket_new
                {| opt_capacity := opt_capacity (options config);
                   opt_refillRate := opt_refillRate (options config);
                   opt_refillInterval := opt_refillInterval (options config) |};
            storage := storage;
            ownsStorage := ownsStorage |}.

Definition RateLimiter_check {S} `{StorageAdapter S} (this : RateLimiter S)
    (now : number) (key : string) : RateLimitResult * RateLimiter S :=
  let '(r, s) := check (algorithm this) now key (storage this) in
  (r, {| algorithm := algorithm this; storage := s;
         ownsStorage := ownsStorage this |}).

Definition RateLimiter_consume {S} `{StorageAdapter S} (this : RateLimiter S)
    (now : number) (key : string) (tokens : number)
  : RateLimitResult * RateLimiter S :=
  let '(r, s) := consume (algorithm this) now key tokens (storage this) in
  (r, {| algorithm := algorithm this; storage := s;
         ownsStorage := ownsStorage this |}).

(** ** The refill schedule in the words of the specification

    [k] is the number of whole intervals in [elapsed]: [k] intervals fit,
    [k + 1] do not. *)
Definition whole_intervals (interval elapsed : number) (k : Z) : Prop :=
  ofZ k * interval <= elapsed /\ elapsed < (ofZ k + 1) * interval.

Definition spec_tokens (this : TokenBucket) (state : BucketState) (k : Z)
  : number :=
  Qmin (capacity this) (tokens state + ofZ k * refillRate this).

Definition spec_lastRefill (this : TokenBucket) (state : BucketState) (k : Z)
  : number :=
  lastRefill state + ofZ k * refillInterval this.

(** ** Derived views of the operations

    What [consume] answers and what it writes, as a function of the state
    it has loaded: [None] when nothing is written. *)
Definition consume_outcome (this : TokenBucket) (now : number)
    (state : BucketState) (tokens : number)
  : RateLimitResult * option BucketState :=
  let currentTokens := calculateTokens this state now in
  let lastRefill := calculateLastRefill this state now in
  if ltb currentTokens tokens
  then (buildResult this false currentTokens lastRefill now, None)
  else
    let newTokens := currentTokens - tokens in
    (buildResult this true newTokens lastRefill now,
     Some {| tokens := newTokens; lastRefill := lastRefill |}).

(** What [check] answers, as a function of the state it has loaded. *)
Definition check_outcome (this : TokenBucket) (now : number)
    (state : BucketState) : RateLimitResult :=
  let tokens := calculateTokens this state now in
  let lastRefill := calculateLastRefill this state now in
  buildResult this (geb tokens 1) tokens lastRefill now.

(** The state of a key that has no entry: a full bucket, refilled now. *)
Definition fresh_state (this : TokenBucket) (now : number) : BucketState :=
  {| tokens := capacity this; lastRefill := now |}.

(** [count] calls of [consume] in a row, at the same instant. *)
Fixpoint consumeTimes {S : Type} `{StorageAdapter S} (this : TokenBucket)
    (now : number) (key : string) (tokens : number) (count : nat)
    (storage : S) : list RateLimitResult * S :=
  match count with
  | O => ([], storage)
  | Datatypes.S count' =>
      let '(r, storage1) := consume this now key tokens storage in
      let '(rs, storage2) :=
        consumeTimes this now key tokens count' storage1 in
      (r :: rs, storage2)
  end.

(** [count] calls of [check] in a row, at the same instant. *)
Fixpoint checkTimes {S : Type} `{StorageAdapter S} (this : TokenBucket)
    (now : number) (key : string) (count : nat) (storage : S)
  : list RateLimitResult * S :=
  match count with
  | O => ([], storage)
  | Datatypes.S count' =>
      let '(r, storage1) := check this now key storage in
      let '(rs, storage2) := checkTimes this now key count' storage1 in
      (r :: rs, storage2)
  end.

(** The limiter of the engine's test suite. *)
Definition bucket5 : TokenBucket := TokenBucket_new (mkOptions 5 1 1000).

(** A store of the reference kind in which ["user-1"] has used up its five
    tokens at time 0, and its journal, still empty. *)
Definition exhausted_store : Logged MemoryStorage :=
  mkLogged
    (Memory.set 0 "user-1" (mkBucketState 0 0) (ttlMs bucket5) Memory.empty)
    [].

(** ** Sequences of operations

    A caller's session: [check]s and [consume]s on any keys for any
    amounts, with the clock moving in between. *)
Inductive Op :=
| OpCheck (key : string)
| OpConsume (key : string) (tokens : number)
| OpAdvance (ms : number).

Fixpoint run {S : Type} `{StorageAdapter S} (this : TokenBucket)
    (ops : list Op) (now : number) (storage : S)
  : list RateLimitResult * S :=
  match ops with
  | [] => ([], storage)
  | OpCheck key :: ops' =>
      let '(r, storage1) := check this now key storage in
      let '(rs, storage2) := run this ops' now storage1 in
      (r :: rs, storage2)
  | OpConsume key tokens :: ops' =>
      let '(r, storage1) := consume this now key tokens storage in
      let '(rs, storage2) := run this ops' now storage1 in
      (r :: rs, storage2)
  | OpAdvance ms :: ops' => run this ops' (now + ms) storage
  end.

(** The states a session hands to [set], in order. *)
Definition written {S : Type} `{StorageAdapter S} (this : TokenBucket)
    (ops : list Op) (now : number) (storage : S) : list BucketState :=
  map (fun w => snd (fst w))
    (writes (calls (snd (run this ops now (mkLogged storage []))))).

(** The invariant of a persisted [BucketState]. *)
Definition within_capacity (this : TokenBucket) (st : BucketState) : Prop :=
  0 <= tokens st /\ tokens st <= capacity this.

Definition nonnegative_amount (op : Op) : Prop :=
  match op with
  | OpConsume _ tokens => 0 <= tokens
  | _ => True
  end.

(** ** The TTL in the words of the specification:
    [2 * ceil (capacity / refillRate) * refillInterval]. *)
Definition spec_ttl (options : RateLimiterOptions) : number :=
  2 * ofZ (ceil (opt_capacity options / opt_refillRate options))
  * opt_refillInterval options.

(** A limiter that refills five tokens a second into a bucket of one. *)
Definition burst1 : TokenBucket := TokenBucket_new (mkOptions 1 5 1000).

(** A configuration the option type documents as invalid. *)
Definition nonpositive_options (o : RateLimiterOptions) : Prop :=
  opt_capacity o <= 0 \/ opt_refillRate o <= 0 \/ opt_refillInterval o <= 0.

(** The options the library documents: all three positive. *)
Definition valid_options (o : RateLimiterOptions) : Prop :=
  0 < opt_capacity o /\ 0 < opt_refillRate o /\ 0 < opt_refillInterval o.

(** ** What a session is granted

    The instant a session ends at. *)
Fixpoint clock_after (ops : list Op) (now : number) : number :=
  match ops with
  | [] => now
  | OpAdvance ms :: ops' => clock_after ops' (now + ms)
  | _ :: ops' => clock_after ops' now
  end.

(** The clock of a session does not run backwards. *)
Definition nonnegative_advance (op : Op) : Prop :=
  match op with
  | OpAdvance ms => 0 <= ms
  | _ => True
  end.

(** The tokens a session was granted on [key]: the amounts of its admitted
    [consume]s, read off the results in order. *)
Fixpoint granted (key : string) (ops : list Op)
    (results : list RateLimitResult) : number :=
  match ops with
  | [] => 0
  | OpAdvance _ :: ops' => granted key ops' results
  | OpCheck _ :: ops' => granted key ops' (tail results)
  | OpConsume k n :: ops' =>
      match results with
      | r :: rs =>
          (if allowed r then if decide (k = key) then n else 0 else 0)
          + granted key ops' rs
      | [] => 0
      end
  end.

(** The refills a bucket is due between [start] and [t]: whole intervals
    only, and as if it refilled continuously. *)
Definition stepped_budget (this : TokenBucket) (start t : number) : number :=
  ofZ (floor ((t - start) / refillInterval this)) * refillRate this.

Definition continuous_budget (this : TokenBucket) (start t : number) : number :=
  (t - start) / refillInterval this * refillRate this.

(** What the store of the test suite holds for [key], against the tokens
    [c] granted on it so far: stored and granted tokens together are paid
    for by the capacity and the whole intervals up to the stored refill
    instant. *)
Definition mock_account (this : TokenBucket) (key : string)
    (start now c : number) (m : MockStorage) : Prop :=
  match mock_store m !! key with
  | None => c <= 0
  | Some st =>
      0 <= tokens st /\ lastRefill st <= now
      /\ c + tokens st
         <= capacity this + stepped_budget this start (lastRefill st)
  end.

(** The same account for the reference store; an entry also outlives its
    refill instant by the TTL.  A key without an entry has been granted no
    more than continuous refilling since [start] pays for. *)
Definition memory_account (this : TokenBucket) (key : string)
    (start now c : number) (m : MemoryStorage) : Prop :=
  match store m !! key with
  | None => c <= continuous_budget this start now
  | Some entry =>
      0 <= tokens (state entry) /\ lastRefill (state entry) <= now
      /\ c + tokens (state entry)
         <= capacity this
            + continuous_budget this start (lastRefill (state entry))
      /\ lastRefill (state entry) + ttlMs this <= expiresAt entry
  end.

(** [destroy()] of the facade: only a store the limiter created itself is
    torn down.  ([this.ownsStorage && this.storage instanceof MemoryStorage]:
    the constructor sets [ownsStorage] exactly for its own [MemoryStorage],
    the right summand.) *)
Definition RateLimiter_destroy {S : Type} (this : RateLimiter S)
  : RateLimiter S :=
  match ownsStorage this, storage this with
  | true, inr m =>
      {| algorithm := algorithm this;
         storage := inr (Memory.destroy m);
         ownsStorage := ownsStorage this |}
  | _, _ => this
  end.

(** ** The Express adapter (src/middleware/express.ts)

    Of a request, the adapter and its callbacks look at the client address,
    the path and the headers.  Of a response, it uses [set], [status] and
    [json]; the model records what those calls leave behind.  The callbacks
    are functions; that they might throw (the [catch] branch, which hands
    the error to [next]) is not part of the model. *)
Record Request := mkRequest {
  ip : option string;
  socket_remoteAddress : option string;
  path : string;
  req_headers : gmap string string
}.

(** The values of the object handed to [json], and the object. *)
Inductive JsonValue :=
| JString (s : string)
| JNumber (n : number)
| JUndefined.

Definition Json := list (string * JsonValue).

Record Response := mkResponse {
  statusCode : Z;
  res_headers : gmap string string;
  body : option Json
}.

Definition res_set (res : Response) (name value : string) : Response :=
  {| statusCode := statusCode res;
     res_headers := <[ name := value ]> (res_headers res);
     body := body res |}.

Definition res_status (res : Response) (code : Z) : Response :=
  {| statusCode := code; res_headers := res_headers res; body := body res |}.

Definition res_json (res : Response) (value : Json) : Response :=
  {| statusCode := statusCode res; res_headers := res_headers res;
     body := Some value |}.

(** [RateLimitMiddlewareOptions extends RateLimiterConfig]. *)
Record RateLimitMiddlewareOptions (S : Type) := mkMiddlewareOptions {
  mw_config : RateLimiterConfig S;
  keyGenerator : option (Request -> string);
  onRateLimited : option (Request -> Response -> RateLimitResult -> Response);
  skip : option (Request -> bool);
  headers : option bool
}.
Arguments mkMiddlewareOptions {S} _ _ _ _ _.
Arguments mw_config {S} _.
Arguments keyGenerator {S} _.
Arguments onRateLimited {S} _.
Arguments skip {S} _.
Arguments headers {S} _.

Definition defaultKeyGenerator (req : Request) : string :=
  match ip req with
  | Some address => address
  | None =>
      match socket_remoteAddress req with
      | Some address => address
      | None => "unknown"
      end
  end.

Definition defaultOnRateLimited (_req : Request) (res : Response)
    (result : RateLimitResult) : Response :=
  res_json (res_status res 429)
    [("error", JString "Too Many Requests");
     ("retryAfter",
      match retryAfter result with
      | Some seconds => JNumber (ofZ seconds)
      | None => JUndefined
      end)].

(** What the closure returned by [createRateLimitMiddleware] holds. *)
Record Middleware (S : Type) := mkMiddleware {
  limiter : RateLimiter S;
  mw_keyGenerator : Request -> string;
  mw_onRateLimited : Request -> Response -> RateLimitResult -> Response;
  mw_skip : option (Request -> bool);
  sendHeaders : bool;
  mw_capacity : number
}.
Arguments mkMiddleware {S} _ _ _ _ _ _.
Arguments limiter {S} _.
Arguments mw_keyGenerator {S} _.
Arguments mw_onRateLimited {S} _.
Arguments mw_skip {S} _.
Arguments sendHeaders {S} _.
Arguments mw_capacity {S} _.

Section ExpressAdapter.

(** [String(x)] for a number; the adapter only stores what it returns. *)
Variable String_ : number -> string.

Definition setRateLimitHeaders (res : Response) (result : RateLimitResult)
    (capacity : number) : Response :=
  let res1 := res_set res "X-RateLimit-Limit" (String_ capacity) in
  let res2 :=
    res_set res1 "X-RateLimit-Remaining" (String_ (ofZ (remaining result))) in
  let res3 :=
    res_set res2 "X-RateLimit-Reset"
      (String_ (ofZ (floor (resetAt result / 1000)))) in
  match negb (allowed result), retryAfter result with
  | true, Some seconds => res_set res3 "Retry-After" (String_ (ofZ seconds))
  | _, _ => res3
  end.

Definition createRateLimitMiddleware {S : Type}
    (opts : RateLimitMiddlewareOptions S) : completion (Middleware S) :=
  match RateLimiter_new (mw_config opts) with
  | Throw message => Throw message
  | Normal limiter =>
      Normal
        {| limiter := limiter;
           mw_keyGenerator :=
             match keyGenerator opts with
             | Some f => f
             | None => defaultKeyGenerator
             end;
           mw_onRateLimited :=
             match onRateLimited opts with
             | Some f => f
             | None => defaultOnRateLimited
             end;
           mw_skip := skip opts;
           sendHeaders :=
             match headers opts with
             | Some false => false
             | _ => true
             end;
           mw_capacity := opt_capacity (options (mw_config opts)) |}
  end.

(** One request through the middleware, at the instant [now]: the
    middleware afterwards, the response, and whether [next()] was called. *)
Definition handle {S : Type} `{StorageAdapter S} (mw : Middleware S)
    (now : number) (req : Request) (res : Response)
  : Middleware S * Response * bool :=
  if match mw_skip mw with Some skip => skip req | None => false end
  then (mw, res, true)
  else
    let key := mw_keyGenerator mw req in
    let '(result, limiter') := RateLimiter_consume (limiter mw) now key 1 in
    let mw' :=
      {| limiter := limiter';
         mw_keyGenerator := mw_keyGenerator mw;
         mw_onRateLimited := mw_onRateLimited mw;
         mw_skip := mw_skip mw;
         sendHeaders := sendHeaders mw;
         mw_capacity := mw_capacity mw |} in
    let res1 :=
      if sendHeaders mw
      then setRateLimitHeaders res result (mw_capacity mw)
      else res in
    if allowed result
    then (mw', res1, true)
    else (mw', mw_onRateLimited mw req res1 result, false).

End ExpressAdapter.

(** The middleware of the adapter's test suite: capacity 2, one token per
    second, every option at its default; a request and a blank response. *)
Definition suite_middleware : Middleware MemoryStorage :=
  {| limiter := {| algorithm := TokenBucket_new (mkOptions 2 1 1000);
                   storage := inr Memory.empty;
                   ownsStorage := true |};
     mw_keyGenerator := defaultKeyGenerator;
     mw_onRateLimited := defaultOnRateLimited;
     mw_skip := None;
     sendHeaders := true;
     mw_capacity := 2 |}.

Definition suite_request : Request :=
  {| ip := Some "127.0.0.1"; socket_remoteAddress := None; path := "/test";
     req_headers := ∅ |}.

Definition blank_response : Response :=
  {| statusCode := 200; res_headers := ∅; body := None |}.

(** * Properties *)

(** ** Comparisons *)

Lemma ltb_lt a b : ltb a b = true <-> a < b.
Proof.
  unfold ltb. rewrite negb_true_iff, <- not_true_iff_false, Qle_bool_iff.
  split; [apply Qnot_le_lt | apply Qlt_not_le].
Qed.

Lemma ltb_ge a b : ltb a b = false <-> b <= a.
Proof.
  unfold ltb. rewrite negb_false_iff. apply Qle_bool_iff.
Qed.

Lemma geb_le a b : geb a b = true <-> b <= a.
Proof. apply Qle_bool_iff. Qed.

Lemma leb_le a b : leb a b = true <-> a <= b.
Proof. apply Qle_bool_iff. Qed.

Lemma leb_gt a b : leb a b = false <-> b < a.
Proof.
  unfold leb. rewrite <- not_true_iff_false, Qle_bool_iff.
  split; [apply Qnot_le_lt | apply Qlt_not_le].
Qed.

(** ** Arithmetic of whole intervals *)

Lemma floor_whole_intervals interval elapsed :
  0 < interval -> whole_intervals interval elapsed (floor (elapsed / interval)).
Proof.
  intros Hpos. unfold whole_intervals, floor, ofZ.
  pose proof (Qfloor_le (elapsed / interval)) as Hlo.
  pose proof (Qlt_floor (elapsed / interval)) as Hhi.
  rewrite inject_Z_plus in Hhi.
  assert (Hne : ~ interval == 0) by (intro E; rewrite E in Hpos; discriminate).
  assert (Hel : elapsed == elapsed / interval * interval)
    by (field; exact Hne).
  split.
  - rewrite Hel at 2. apply Qmult_le_r; assumption.
  - rewrite Hel at 1. apply Qmult_lt_r; assumption.
Qed.

Lemma whole_intervals_unique interval elapsed k :
  0 < interval -> whole_intervals interval elapsed k ->
  k = floor (elapsed / interval).
Proof.
  intros Hpos [Hlo Hhi]. unfold floor, ofZ in *.
  assert (H1 : inject_Z k <= elapsed / interval)
    by (apply Qle_shift_div_l; assumption).
  assert (H2 : elapsed / interval < inject_Z k + 1)
    by (apply Qlt_shift_div_r; assumption).
  apply Qfloor_resp_le in H1. rewrite Qfloor_Z in H1.
  pose proof (Qfloor_le (elapsed / interval)) as H3.
  assert (H4 : inject_Z (Qfloor (elapsed / interval)) < inject_Z (k + 1)).
  { rewrite inject_Z_plus. eapply Qle_lt_trans; eassumption. }
  rewrite <- Zlt_Qlt in H4. lia.
Qed.

Lemma floor_nonneg q : 0 <= q -> (0 <= floor q)%Z.
Proof.
  intros H. apply Qfloor_resp_le in H. exact H.
Qed.

Lemma intervalsElapsed_nonneg this state now :
  0 < refillInterval this -> lastRefill state <= now ->
  (0 <= intervalsElapsed this state now)%Z.
Proof.
  intros Hpos Hnow. unfold intervalsElapsed. apply floor_nonneg.
  apply Qle_shift_div_l; [assumption | lra].
Qed.

(** ** The refill computation *)

(** C1.  For every stored state and every [now >= state.lastRefill] (with a
    positive refill interval) there is a number [k >= 0] of whole intervals
    elapsed, [k * refillInterval <= now - lastRefill < (k+1) * refillInterval],
    which is [floor ((now - lastRefill) / refillInterval)], such that the
    engine computes [tokens(now) = min (capacity, tokens + k * refillRate)]
    and [lastRefill(now) = lastRefill + k * refillInterval]; when less than
    one interval has elapsed [k = 0]: a partial interval grants nothing and
    does not move [lastRefill]. *)
Theorem C1_refill_computation (this : TokenBucket) (state : BucketState)
    (now : number) :
  0 < refillInterval this ->
  lastRefill state <= now ->
  exists k : Z,
    k = floor ((now - lastRefill state) / refillInterval this) /\
    (0 <= k)%Z /\
    whole_intervals (refillInterval this) (now - lastRefill state) k /\
    calculateTokens this state now = spec_tokens this state k /\
    calculateLastRefill this state now = spec_lastRefill this state k /\
    (now - lastRefill state < refillInterval this ->
       k = 0%Z /\
       calculateTokens this state now == Qmin (capacity this) (tokens state) /\
       calculateLastRefill this state now == lastRefill state).
Proof.
  intros Hpos Hnow.
  exists (intervalsElapsed this state now).
  split; [reflexivity |].
  split; [apply intervalsElapsed_nonneg; assumption |].
  split; [apply floor_whole_intervals; assumption |].
  split; [reflexivity |].
  split; [reflexivity |].
  intros Hpartial.
  assert (Hk : intervalsElapsed this state now = 0%Z).
  { symmetry. apply whole_intervals_unique; [assumption |].
    unfold whole_intervals, ofZ. change (inject_Z 0) with 0. split; lra. }
  split; [exact Hk |].
  unfold calculateTokens, calculateLastRefill.
  fold (intervalsElapsed this state now). rewrite Hk. unfold ofZ.
  change (inject_Z 0) with 0.
  split.
  - assert (E : tokens state + 0 * refillRate this == tokens state) by ring.
    rewrite E. reflexivity.
  - ring.
Qed.

Lemma C1_refill_computation_witness :
  exists k : Z,
    k = floor ((2500 - 0) / 1000) /\
    (0 <= k)%Z /\
    whole_intervals 1000 (2500 - 0) k /\
    calculateTokens (TokenBucket_new (mkOptions 5 1 1000))
      (mkBucketState 1 0) 2500
    = spec_tokens (TokenBucket_new (mkOptions 5 1 1000))
        (mkBucketState 1 0) k /\
    calculateLastRefill (TokenBucket_new (mkOptions 5 1 1000))
      (mkBucketState 1 0) 2500
    = spec_lastRefill (TokenBucket_new (mkOptions 5 1 1000))
        (mkBucketState 1 0) k /\
    (2500 - 0 < 1000 ->
       k = 0%Z /\
       calculateTokens (TokenBucket_new (mkOptions 5 1 1000))
         (mkBucketState 1 0) 2500 == Qmin 5 1 /\
       calculateLastRefill (TokenBucket_new (mkOptions 5 1 1000))
         (mkBucketState 1 0) 2500 == 0).
Proof.
  apply (C1_refill_computation (TokenBucket_new (mkOptions 5 1 1000))
           (mkBucketState 1 0) 2500).
  - reflexivity.
  - simpl. discriminate.
Defined.

(** The refill of the example above: 2.5 intervals grant two tokens. *)
Example refill_two_and_a_half :
  calculateTokens (TokenBucket_new (mkOptions 5 1 1000))
    (mkBucketState 1 0) 2500 == 3
  /\ calculateLastRefill (TokenBucket_new (mkOptions 5 1 1000))
       (mkBucketState 1 0) 2500 == 2000.
Proof. split; vm_compute; reflexivity. Qed.

(** ** The operations in terms of the state they load *)

Section OperationFacts.

Context {S : Type} `{StorageAdapter S}.
Variable this : TokenBucket.

Lemma consume_unfold now key n (storage : S) :
  consume this now key n storage =
    let '(state, storage1) := getOrCreateState this key now storage in
    match consume_outcome this now state n with
    | (r, None) => (r, storage1)
    | (r, Some w) => (r, storage_set now key w (ttlMs this) storage1)
    end.
Proof.
  unfold consume, consume_outcome.
  destruct (getOrCreateState this key now storage) as [state storage1].
  destruct (ltb (calculateTokens this state now) n); reflexivity.
Qed.

Lemma check_unfold now key (storage : S) :
  check this now key storage =
    let '(state, storage1) := getOrCreateState this key now storage in
    (check_outcome this now state, storage1).
Proof. reflexivity. Qed.

Lemma getOrCreateState_get now key (storage : S) :
  getOrCreateState this key now storage =
    (default (fresh_state this now) (fst (storage_get now key storage)),
     snd (storage_get now key storage)).
Proof.
  unfold getOrCreateState.
  destruct (storage_get now key storage) as [[existing|] storage'];
    reflexivity.
Qed.

End OperationFacts.

(** ** The reference store *)

Lemma memory_get_absent now key (m : MemoryStorage) :
  store m !! key = None -> Memory.get now key m = (None, m).
Proof. intros E. unfold Memory.get. rewrite E. reflexivity. Qed.

Lemma memory_get_expired now key (m : MemoryStorage) entry :
  store m !! key = Some entry -> expiresAt entry <= now ->
  Memory.get now key m = (None, {| store := delete key (store m) |}).
Proof.
  intros E Hexp. unfold Memory.get. rewrite E.
  apply leb_le in Hexp. rewrite Hexp. reflexivity.
Qed.

Lemma memory_get_live now key (m : MemoryStorage) entry :
  store m !! key = Some entry -> now < expiresAt entry ->
  Memory.get now key m = (Some (state entry), m).
Proof.
  intros E Hlive. unfold Memory.get. rewrite E.
  apply leb_gt in Hlive. rewrite Hlive. reflexivity.
Qed.

Lemma memory_get_set now key st ttl (m : MemoryStorage) :
  0 < ttl ->
  Memory.get now key (Memory.set now key st ttl m)
  = (Some st, Memory.set now key st ttl m).
Proof.
  intros Httl.
  apply (memory_get_live now key (Memory.set now key st ttl m)
           {| state := st; expiresAt := now + ttl |}).
  - simpl. apply lookup_insert_eq.
  - simpl. lra.
Qed.

Lemma memory_set_set now key st st' ttl ttl' (m : MemoryStorage) :
  Memory.set now key st' ttl' (Memory.set now key st ttl m)
  = Memory.set now key st' ttl' m.
Proof. unfold Memory.set. simpl. rewrite insert_insert_eq. reflexivity. Qed.

(** C9.  In the reference store, a state written with a positive TTL is read
    back unchanged at the same instant; [get] answers "absent" for a key
    without an entry, and answers "absent" and deletes the entry when the
    entry has [expiresAt <= now]. *)
Theorem C9_memory_roundtrip (m : MemoryStorage) (key : string)
    (st : BucketState) (ttlMs now : number) :
  0 < ttlMs ->
  fst (Memory.get now key (Memory.set now key st ttlMs m)) = Some st
  /\ (store m !! key = None -> Memory.get now key m = (None, m))
  /\ (forall entry,
        store m !! key = Some entry -> expiresAt entry <= now ->
        fst (Memory.get now key m) = None
        /\ store (snd (Memory.get now key m)) !! key = None
        /\ forall key', key' <> key ->
             store (snd (Memory.get now key m)) !! key' = store m !! key').
Proof.
  intros Httl. split; [| split].
  - rewrite memory_get_set by assumption. reflexivity.
  - apply memory_get_absent.
  - intros entry E Hexp.
    rewrite (memory_get_expired now key m entry E Hexp). simpl.
    split; [reflexivity |]. split.
    + apply lookup_delete_eq.
    + intros key' Hne. apply lookup_delete_ne. congruence.
Qed.

Lemma C9_memory_roundtrip_witness :
  fst (Memory.get 0 "k" (Memory.set 0 "k" (mkBucketState 3 0) 5000
                           Memory.empty))
  = Some (mkBucketState 3 0)
  /\ (store Memory.empty !! "k" = None ->
      Memory.get 0 "k" Memory.empty = (None, Memory.empty))
  /\ (forall entry,
        store Memory.empty !! "k" = Some entry -> expiresAt entry <= 0 ->
        fst (Memory.get 0 "k" Memory.empty) = None
        /\ store (snd (Memory.get 0 "k" Memory.empty)) !! "k" = None
        /\ forall key', key' <> "k" ->
             store (snd (Memory.get 0 "k" Memory.empty)) !! key'
             = store Memory.empty !! key').
Proof.
  apply (C9_memory_roundtrip Memory.empty "k" (mkBucketState 3 0) 5000 0).
  reflexivity.
Defined.

(** The store's behaviour in the TTL test of the suite: an entry written at
    [0] with a TTL of 5000 is there at 4000 and gone, and deleted, at 6000. *)
Example memory_ttl_5000 :
  let m := Memory.set 0 "key-1" (mkBucketState 5 0) 5000 Memory.empty in
  Memory.get 4000 "key-1" m = (Some (mkBucketState 5 0), m)
  /\ fst (Memory.get 6000 "key-1" m) = None
  /\ Memory.size (snd (Memory.get 6000 "key-1" m)) = 0%nat.
Proof. vm_compute. repeat split. Qed.

(** ** The engine on the reference store *)

Lemma memory_state_absent this now key (m : MemoryStorage) :
  store m !! key = None ->
  getOrCreateState this key now m = (fresh_state this now, m).
Proof.
  intros E. rewrite getOrCreateState_get. simpl.
  rewrite memory_get_absent by assumption. reflexivity.
Qed.

Lemma memory_state_written this now key st ttl (m : MemoryStorage) :
  0 < ttl ->
  getOrCreateState this key now (Memory.set now key st ttl m)
  = (st, Memory.set now key st ttl m).
Proof.
  intros Httl. rewrite getOrCreateState_get. simpl.
  rewrite memory_get_set by assumption. reflexivity.
Qed.

(** One admitted [consume] on an entry written at the same instant. *)
Lemma memory_consume_written this now key n st w r (m : MemoryStorage) ttl :
  0 < ttl ->
  consume_outcome this now st n = (r, Some w) ->
  consume this now key n (Memory.set now key st ttl m)
  = (r, Memory.set now key w (ttlMs this) m).
Proof.
  intros Httl Hout. rewrite consume_unfold.
  rewrite memory_state_written by assumption. rewrite Hout. simpl.
  apply f_equal. apply memory_set_set.
Qed.

Lemma memory_consume_written_reject this now key n st r (m : MemoryStorage)
    ttl :
  0 < ttl ->
  consume_outcome this now st n = (r, None) ->
  consume this now key n (Memory.set now key st ttl m)
  = (r, Memory.set now key st ttl m).
Proof.
  intros Httl Hout. rewrite consume_unfold.
  rewrite memory_state_written by assumption. rewrite Hout. reflexivity.
Qed.

Lemma memory_consume_absent this now key n w r (m : MemoryStorage) :
  store m !! key = None ->
  consume_outcome this now (fresh_state this now) n = (r, Some w) ->
  consume this now key n m = (r, Memory.set now key w (ttlMs this) m).
Proof.
  intros E Hout. rewrite consume_unfold.
  rewrite memory_state_absent by assumption. rewrite Hout. reflexivity.
Qed.

Lemma consumeTimes_succ {S : Type} `{StorageAdapter S} this now key n count
    (storage : S) :
  consumeTimes this now key n (Datatypes.S count) storage
  = let '(r, storage1) := consume this now key n storage in
    let '(rs, storage2) := consumeTimes this now key n count storage1 in
    (r :: rs, storage2).
Proof. reflexivity. Qed.

(** C2.  With capacity 5, one token per 1000 ms, a key without an entry and
    the clock standing at 0: five [consume(key)] calls are admitted with
    4, 3, 2, 1, 0 remaining, the sixth is rejected with 0 remaining and a
    [retryAfter] of one second. *)
Theorem C2_five_admitted_sixth_rejected (m : MemoryStorage) (key : string) :
  store m !! key = None ->
  let results := fst (consumeTimes bucket5 0 key 1 6 m) in
  map (fun r => (allowed r, remaining r)) results
  = [(true, 4%Z); (true, 3%Z); (true, 2%Z); (true, 1%Z); (true, 0%Z);
     (false, 0%Z)]
  /\ map retryAfter results = [None; None; None; None; None; Some 1%Z]
  /\ exists seconds, (retryAfter <$> last results) = Some (Some seconds)
                     /\ (0 < seconds)%Z.
Proof.
  intros Habsent.
  assert (Httl : 0 < ttlMs bucket5) by reflexivity.
  assert (O5 : consume_outcome bucket5 0 (fresh_state bucket5 0) 1
               = (mkResult true 4 1000 None, Some (mkBucketState 4 0)))
    by (vm_compute; reflexivity).
  assert (O4 : consume_outcome bucket5 0 (mkBucketState 4 0) 1
               = (mkResult true 3 2000 None, Some (mkBucketState 3 0)))
    by (vm_compute; reflexivity).
  assert (O3 : consume_outcome bucket5 0 (mkBucketState 3 0) 1
               = (mkResult true 2 3000 None, Some (mkBucketState 2 0)))
    by (vm_compute; reflexivity).
  assert (O2 : consume_outcome bucket5 0 (mkBucketState 2 0) 1
               = (mkResult true 1 4000 None, Some (mkBucketState 1 0)))
    by (vm_compute; reflexivity).
  assert (O1 : consume_outcome bucket5 0 (mkBucketState 1 0) 1
               = (mkResult true 0 5000 None, Some (mkBucketState 0 0)))
    by (vm_compute; reflexivity).
  assert (O0 : consume_outcome bucket5 0 (mkBucketState 0 0) 1
               = (mkResult false 0 5000 (Some 1%Z), None))
    by (vm_compute; reflexivity).
  rewrite consumeTimes_succ.
  rewrite (memory_consume_absent _ _ _ _ _ _ _ Habsent O5).
  rewrite consumeTimes_succ.
  rewrite (memory_consume_written _ _ _ _ _ _ _ _ _ Httl O4).
  rewrite consumeTimes_succ.
  rewrite (memory_consume_written _ _ _ _ _ _ _ _ _ Httl O3).
  rewrite consumeTimes_succ.
  rewrite (memory_consume_written _ _ _ _ _ _ _ _ _ Httl O2).
  rewrite consumeTimes_succ.
  rewrite (memory_consume_written _ _ _ _ _ _ _ _ _ Httl O1).
  rewrite consumeTimes_succ.
  rewrite (memory_consume_written_reject _ _ _ _ _ _ _ _ Httl O0).
  cbn [consumeTimes fst map allowed remaining retryAfter].
  split; [reflexivity |]. split; [reflexivity |].
  exists 1%Z. split; [reflexivity | lia].
Qed.

Lemma C2_five_admitted_sixth_rejected_witness :
  let results := fst (consumeTimes bucket5 0 "user-1" 1 6 Memory.empty) in
  map (fun r => (allowed r, remaining r)) results
  = [(true, 4%Z); (true, 3%Z); (true, 2%Z); (true, 1%Z); (true, 0%Z);
     (false, 0%Z)]
  /\ map retryAfter results = [None; None; None; None; None; Some 1%Z]
  /\ exists seconds, (retryAfter <$> last results) = Some (Some seconds)
                     /\ (0 < seconds)%Z.
Proof.
  apply (C2_five_admitted_sixth_rejected Memory.empty "user-1").
  reflexivity.
Defined.

(** ** The result record *)

Lemma buildResult_retryAfter this a t lr now :
  retryAfter (buildResult this a t lr now)
  = if a then None else Some (calculateRetryAfter this lr now).
Proof. destruct a; reflexivity. Qed.

Lemma buildResult_allowed this a t lr now :
  allowed (buildResult this a t lr now) = a.
Proof. reflexivity. Qed.

(** The refill time computed for [now] is the last refill instant at or
    before [now]: the next one lies strictly after [now]. *)
Lemma calculateLastRefill_bracket this state now :
  0 < refillInterval this ->
  calculateLastRefill this state now <= now
  /\ now < calculateLastRefill this state now + refillInterval this.
Proof.
  intros Hpos.
  destruct (floor_whole_intervals (refillInterval this)
              (now - lastRefill state) Hpos) as [Hlo Hhi].
  unfold calculateLastRefill. split; lra.
Qed.

Lemma ceil_positive q : 0 < q -> (0 < ceil q)%Z.
Proof.
  intros Hq. unfold ceil. pose proof (Qle_ceiling q) as Hle.
  rewrite Zlt_Qlt. eapply Qlt_le_trans; eassumption.
Qed.

Lemma calculateRetryAfter_positive this state now :
  0 < refillInterval this ->
  (0 < calculateRetryAfter this (calculateLastRefill this state now) now)%Z.
Proof.
  intros Hpos.
  destruct (calculateLastRefill_bracket this state now Hpos) as [_ Hnext].
  unfold calculateRetryAfter.
  assert (0 < ceil ((calculateLastRefill this state now
                     + refillInterval this - now) / 1000))%Z.
  { apply ceil_positive. apply Qlt_shift_div_l; [reflexivity | lra]. }
  lia.
Qed.

Lemma consume_outcome_result this now state n :
  fst (consume_outcome this now state n)
  = buildResult this (negb (ltb (calculateTokens this state now) n))
      (if ltb (calculateTokens this state now) n
       then calculateTokens this state now
       else calculateTokens this state now - n)
      (calculateLastRefill this state now) now.
Proof.
  unfold consume_outcome.
  destruct (ltb (calculateTokens this state now) n); reflexivity.
Qed.

Section ResultFacts.

Context {S : Type} `{StorageAdapter S}.
Variable this : TokenBucket.

Lemma consume_result now key n (storage : S) :
  fst (consume this now key n storage)
  = fst (consume_outcome this now
           (fst (getOrCreateState this key now storage)) n).
Proof.
  rewrite consume_unfold.
  destruct (getOrCreateState this key now storage) as [state storage1].
  simpl. destruct (consume_outcome this now state n) as [r [w|]];
    reflexivity.
Qed.

Lemma check_result now key (storage : S) :
  fst (check this now key storage)
  = check_outcome this now (fst (getOrCreateState this key now storage)).
Proof.
  rewrite check_unfold.
  destruct (getOrCreateState this key now storage); reflexivity.
Qed.

(** C7.  In every result of [check] or [consume] (for a limiter with a
    positive refill interval) [retryAfter] is present exactly when
    [allowed] is false, and a present [retryAfter] is greater than 0. *)
Theorem C7_retryAfter_iff_rejected now key n (storage : S)
    (r : RateLimitResult) :
  0 < refillInterval this ->
  r = fst (check this now key storage)
  \/ r = fst (consume this now key n storage) ->
  (is_Some (retryAfter r) <-> allowed r = false)
  /\ (forall seconds, retryAfter r = Some seconds -> (0 < seconds)%Z).
Proof.
  intros Hpos Hr.
  assert (Hshape : exists a t state,
             r = buildResult this a t
                   (calculateLastRefill this state now) now).
  { destruct Hr as [-> | ->].
    - rewrite check_result. unfold check_outcome. eauto.
    - rewrite consume_result, consume_outcome_result. eauto. }
  destruct Hshape as (a & t & state & ->).
  rewrite buildResult_retryAfter, buildResult_allowed.
  pose proof (calculateRetryAfter_positive this state now Hpos) as Hgt.
  destruct a; split.
  - split; [intros [x Hx]; discriminate | discriminate].
  - discriminate.
  - split; [reflexivity | eauto].
  - intros seconds [= <-]. exact Hgt.
Qed.

End ResultFacts.

Lemma C7_retryAfter_iff_rejected_witness :
  (is_Some (retryAfter (fst (consume bucket5 0 "user-1" 6 Memory.empty)))
   <-> allowed (fst (consume bucket5 0 "user-1" 6 Memory.empty)) = false)
  /\ (forall seconds,
        retryAfter (fst (consume bucket5 0 "user-1" 6 Memory.empty))
        = Some seconds -> (0 < seconds)%Z).
Proof.
  apply (C7_retryAfter_iff_rejected bucket5 0 "user-1" 6 Memory.empty).
  - reflexivity.
  - right. reflexivity.
Defined.

(** A rejected call: six tokens asked of a fresh bucket of five. *)
Example consume_six_of_five :
  fst (consume bucket5 0 "user-1" 6 Memory.empty)
  = mkResult false 5 0 (Some 1%Z).
Proof. vm_compute. reflexivity. Qed.

(** ** The journal of store calls *)

Lemma writes_app l1 l2 : writes (l1 ++ l2) = writes l1 ++ writes l2.
Proof.
  induction l1 as [| c l1 IH]; [reflexivity |].
  destruct c; simpl; rewrite IH; reflexivity.
Qed.

Section JournalFacts.

Context {S : Type} `{StorageAdapter S}.
Variable this : TokenBucket.

Lemma logged_get now key (l : Logged S) :
  storage_get now key l
  = (fst (storage_get now key (inner l)),
     mkLogged (snd (storage_get now key (inner l)))
       (calls l ++ [CallGet key])).
Proof.
  simpl. destruct (storage_get now key (inner l)); reflexivity.
Qed.

Lemma logged_state now key (l : Logged S) :
  getOrCreateState this key now l
  = (fst (getOrCreateState this key now (inner l)),
     mkLogged (snd (getOrCreateState this key now (inner l)))
       (calls l ++ [CallGet key])).
Proof.
  unfold getOrCreateState. simpl.
  destruct (storage_get now key (inner l)) as [[existing|] s]; reflexivity.
Qed.

Lemma logged_check now key (l : Logged S) :
  check this now key l
  = (fst (check this now key (inner l)),
     mkLogged (snd (check this now key (inner l)))
       (calls l ++ [CallGet key])).
Proof.
  rewrite !check_unfold, logged_state.
  destruct (getOrCreateState this key now (inner l)); reflexivity.
Qed.

Lemma logged_consume now key n (l : Logged S) :
  consume this now key n l
  = (fst (consume this now key n (inner l)),
     mkLogged (snd (consume this now key n (inner l)))
       (calls l ++ CallGet key ::
          match snd (consume_outcome this now
                       (fst (getOrCreateState this key now (inner l))) n)
          with
          | Some w => [CallSet key w (ttlMs this)]
          | None => []
          end)).
Proof.
  rewrite !consume_unfold, logged_state.
  destruct (getOrCreateState this key now (inner l)) as [state s]. simpl.
  destruct (consume_outcome this now state n) as [r [w|]]; simpl.
  - rewrite <- app_assoc. reflexivity.
  - reflexivity.
Qed.

(** A rejected [consume] leaves the store as its one [get] left it. *)
Lemma consume_rejected_store now key n (storage : S) :
  calculateTokens this (fst (getOrCreateState this key now storage)) now < n ->
  consume this now key n storage
  = (buildResult this false
       (calculateTokens this (fst (getOrCreateState this key now storage)) now)
       (calculateLastRefill this
          (fst (getOrCreateState this key now storage)) now) now,
     snd (storage_get now key storage)).
Proof.
  intros Hlt. apply ltb_lt in Hlt.
  rewrite consume_unfold. rewrite getOrCreateState_get in *. simpl in *.
  unfold consume_outcome. rewrite Hlt. reflexivity.
Qed.

(** An admitted [consume] writes the reduced count, once. *)
Lemma consume_admitted_store now key n (storage : S) :
  n <= calculateTokens this (fst (getOrCreateState this key now storage)) now ->
  consume this now key n storage
  = (let state := fst (getOrCreateState this key now storage) in
     let newTokens := calculateTokens this state now - n in
     let lastRefill := calculateLastRefill this state now in
     (buildResult this true newTokens lastRefill now,
      storage_set now key {| tokens := newTokens; lastRefill := lastRefill |}
        (ttlMs this) (snd (storage_get now key storage)))).
Proof.
  intros Hge. apply ltb_ge in Hge.
  rewrite consume_unfold. rewrite getOrCreateState_get in *. simpl in *.
  unfold consume_outcome. rewrite Hge. reflexivity.
Qed.

End JournalFacts.

(** Reading a key of the reference store does not change what any later
    read returns. *)
Lemma memory_get_observe now key (m : MemoryStorage) key' t :
  now <= t ->
  fst (Memory.get t key' (snd (Memory.get now key m)))
  = fst (Memory.get t key' m).
Proof.
  intros Ht. unfold Memory.get at 2.
  destruct (store m !! key) as [entry|] eqn:E; [| reflexivity].
  destruct (leb (expiresAt entry) now) eqn:Hexp; [| reflexivity].
  apply leb_le in Hexp. simpl.
  destruct (decide (key' = key)) as [-> | Hne].
  - rewrite memory_get_absent by (simpl; apply lookup_delete_eq).
    rewrite (memory_get_expired t key m entry E) by lra. reflexivity.
  - unfold Memory.get. simpl. rewrite lookup_delete_ne by congruence.
    destruct (store m !! key') as [entry'|]; [| reflexivity].
    destruct (leb (expiresAt entry') t); reflexivity.
Qed.

Lemma memory_get_idem now key (m : MemoryStorage) :
  snd (Memory.get now key (snd (Memory.get now key m)))
  = snd (Memory.get now key m).
Proof.
  unfold Memory.get at 2 3.
  destruct (store m !! key) as [entry|] eqn:E.
  - destruct (leb (expiresAt entry) now) eqn:Hexp; simpl.
    + rewrite memory_get_absent by (simpl; apply lookup_delete_eq).
      reflexivity.
    + unfold Memory.get. rewrite E, Hexp. reflexivity.
  - simpl. rewrite memory_get_absent by assumption. reflexivity.
Qed.

(** C5.  When the token count computed for [now] is below the requested
    amount, [consume] answers [allowed = false] (with the floored count as
    [remaining]); its only call on the store is the [get], no [set]; and
    every later read of every key of the reference store returns what it
    would have returned without the call. *)
Theorem C5_rejection_writes_nothing (this : TokenBucket) (now : number)
    (key : string) (n : number) (l : Logged MemoryStorage) :
  0 < refillInterval this ->
  calculateTokens this (fst (getOrCreateState this key now l)) now < n ->
  allowed (fst (consume this now key n l)) = false
  /\ remaining (fst (consume this now key n l))
     = floor (calculateTokens this (fst (getOrCreateState this key now l)) now)
  /\ calls (snd (consume this now key n l)) = calls l ++ [CallGet key]
  /\ writes (calls (snd (consume this now key n l))) = writes (calls l)
  /\ forall key' t, now <= t ->
       fst (Memory.get t key' (inner (snd (consume this now key n l))))
       = fst (Memory.get t key' (inner l)).
Proof.
  intros _ Hlt.
  rewrite (consume_rejected_store this now key n l Hlt).
  rewrite logged_get.
  cbn [fst snd inner calls allowed remaining buildResult].
  split; [reflexivity |]. split; [reflexivity |]. split; [reflexivity |].
  split.
  - rewrite writes_app. simpl. apply app_nil_r.
  - intros key' t Ht. apply memory_get_observe. assumption.
Qed.

Lemma C5_rejection_writes_nothing_witness :
  allowed (fst (consume bucket5 500 "user-1" 1 exhausted_store)) = false
  /\ remaining (fst (consume bucket5 500 "user-1" 1 exhausted_store))
     = floor (calculateTokens bucket5
                (fst (getOrCreateState bucket5 "user-1" 500 exhausted_store))
                500)
  /\ calls (snd (consume bucket5 500 "user-1" 1 exhausted_store))
     = calls exhausted_store ++ [CallGet "user-1"]
  /\ writes (calls (snd (consume bucket5 500 "user-1" 1 exhausted_store)))
     = writes (calls exhausted_store)
  /\ forall key' t, 500 <= t ->
       fst (Memory.get t key'
              (inner (snd (consume bucket5 500 "user-1" 1 exhausted_store))))
       = fst (Memory.get t key' (inner exhausted_store)).
Proof.
  apply (C5_rejection_writes_nothing bucket5 500 "user-1" 1 exhausted_store).
  - reflexivity.
  - vm_compute. reflexivity.
Defined.

(** ** [check] *)

Lemma geb_compat a b c : a == b -> geb a c = geb b c.
Proof.
  intros E. apply eq_true_iff_eq. rewrite !geb_le, E. reflexivity.
Qed.

Lemma fresh_state_tokens this now :
  calculateTokens this (fresh_state this now) now == capacity this.
Proof.
  unfold calculateTokens, fresh_state. cbn [tokens lastRefill].
  assert (E : (now - now) / refillInterval this == 0)
    by (unfold Qdiv; ring).
  unfold floor. rewrite (Qfloor_comp _ _ E). change (Qfloor 0) with 0%Z.
  unfold ofZ.
  change (inject_Z 0) with 0.
  assert (E' : capacity this + 0 * refillRate this == capacity this) by ring.
  rewrite E'. apply Q.min_id.
Qed.

Lemma fresh_state_lastRefill this now :
  calculateLastRefill this (fresh_state this now) now == now.
Proof.
  unfold calculateLastRefill, fresh_state. cbn [tokens lastRefill].
  assert (E : (now - now) / refillInterval this == 0)
    by (unfold Qdiv; ring).
  unfold floor. rewrite (Qfloor_comp _ _ E). change (Qfloor 0) with 0%Z.
  unfold ofZ.
  change (inject_Z 0) with 0. ring.
Qed.

(** After a [check] the reference store holds the same state for the key. *)
Lemma memory_state_after_check this now key (l : Logged MemoryStorage) :
  fst (getOrCreateState this key now (snd (check this now key l)))
  = fst (getOrCreateState this key now l).
Proof.
  rewrite logged_check. rewrite !logged_state. cbn [fst snd inner].
  rewrite check_unfold. rewrite !getOrCreateState_get. cbn [fst snd].
  change (storage_get now key) with (Memory.get now key).
  rewrite (memory_get_observe now key (inner l) key now) by lra.
  reflexivity.
Qed.

Lemma checkTimes_memory this now key count (l : Logged MemoryStorage) :
  fst (checkTimes this now key count l)
  = replicate count (fst (check this now key l))
  /\ writes (calls (snd (checkTimes this now key count l)))
     = writes (calls l).
Proof.
  revert l. induction count as [| count IH]; intros l; [split; reflexivity |].
  cbn [checkTimes].
  destruct (check this now key l) as [r l1] eqn:Hcheck.
  destruct (IH l1) as [IHr IHw].
  destruct (checkTimes this now key count l1) as [rs l2]. simpl in *.
  assert (Hl1 : l1 = snd (check this now key l)) by (rewrite Hcheck; reflexivity).
  split.
  - rewrite IHr. f_equal. f_equal. rewrite Hl1.
    rewrite !check_result. rewrite memory_state_after_check.
    rewrite <- check_result, Hcheck. reflexivity.
  - rewrite IHw, Hl1, logged_check. cbn [snd calls].
    rewrite writes_app. simpl. apply app_nil_r.
Qed.

(** C6.  [check] loads the state the store holds for the key: the state of
    its entry if that has not expired, a full bucket refilled at [now] if
    there is no entry or it has expired.  Its result is built from the
    refill of that state: [allowed = (tokens(now) >= 1)] and
    [remaining = floor (tokens(now))].  [check] only reads: its one call on
    the store is the [get], every later read of every key of the reference
    store returns what it would have returned without the call, and any
    number of [check]s of a key at one instant return the same result and
    write nothing. *)
Theorem C6_check_reads_only (this : TokenBucket) (now : number)
    (key : string) (count : nat) (l : Logged MemoryStorage) :
  0 < refillInterval this ->
  let loaded :=
    match store (inner l) !! key with
    | Some entry =>
        if leb (expiresAt entry) now
        then {| tokens := capacity this; lastRefill := now |}
        else state entry
    | None => {| tokens := capacity this; lastRefill := now |}
    end in
  let r := fst (check this now key l) in
  fst (getOrCreateState this key now l) = loaded
  /\ r = {| allowed := geb (calculateTokens this loaded now) 1;
            remaining := floor (calculateTokens this loaded now);
            resetAt := calculateResetAt this (calculateTokens this loaded now)
                         (calculateLastRefill this loaded now);
            retryAfter :=
              if geb (calculateTokens this loaded now) 1 then None
              else Some (calculateRetryAfter this
                           (calculateLastRefill this loaded now) now) |}
  /\ calls (snd (check this now key l)) = calls l ++ [CallGet key]
  /\ (forall key' t, now <= t ->
        fst (Memory.get t key' (inner (snd (check this now key l))))
        = fst (Memory.get t key' (inner l)))
  /\ fst (checkTimes this now key count l) = replicate count r
  /\ writes (calls (snd (checkTimes this now key count l)))
     = writes (calls l)
  /\ allowed r = geb (calculateTokens this loaded now) 1
  /\ remaining r = floor (calculateTokens this loaded now)
  /\ (fst (Memory.get now key (inner l)) = None ->
      loaded = {| tokens := capacity this; lastRefill := now |}
      /\ calculateTokens this loaded now == capacity this
      /\ calculateLastRefill this loaded now == now
      /\ allowed r = geb (capacity this) 1
      /\ remaining r = floor (capacity this)).
Proof.
  intros _ loaded r.
  destruct (checkTimes_memory this now key count l) as [Hrs Hws].
  assert (Hget : default (fresh_state this now)
                   (fst (Memory.get now key (inner l))) = loaded).
  { subst loaded. unfold Memory.get.
    destruct (store (inner l) !! key) as [entry|]; [| reflexivity].
    destruct (leb (expiresAt entry) now); reflexivity. }
  assert (Hst : fst (getOrCreateState this key now l) = loaded).
  { rewrite logged_state, getOrCreateState_get. cbn [fst]. exact Hget. }
  assert (Hr : r = check_outcome this now loaded)
    by (subst r; rewrite check_result, Hst; reflexivity).
  split; [exact Hst |].
  split.
  { rewrite Hr. unfold check_outcome, buildResult.
    destruct (geb (calculateTokens this loaded now) 1); reflexivity. }
  split; [rewrite logged_check; reflexivity |].
  split.
  { intros key' t Ht. rewrite logged_check, check_unfold.
    rewrite getOrCreateState_get. cbn [fst snd inner].
    apply memory_get_observe. exact Ht. }
  split; [exact Hrs |]. split; [exact Hws |].
  split; [rewrite Hr; reflexivity |].
  split; [rewrite Hr; reflexivity |].
  intros Hnone.
  assert (Hfresh : loaded = fresh_state this now)
    by (rewrite <- Hget, Hnone; reflexivity).
  split; [exact Hfresh |]. rewrite Hr, Hfresh.
  split; [apply fresh_state_tokens |].
  split; [apply fresh_state_lastRefill |].
  unfold check_outcome. cbn [allowed remaining buildResult].
  split.
  - apply geb_compat, fresh_state_tokens.
  - unfold floor. apply Qfloor_comp, fresh_state_tokens.
Qed.

Lemma C6_check_reads_only_witness :
  let loaded :=
    match store (inner exhausted_store) !! "user-1" with
    | Some entry =>
        if leb (expiresAt entry) 1500
        then {| tokens := capacity bucket5; lastRefill := 1500 |}
        else state entry
    | None => {| tokens := capacity bucket5; lastRefill := 1500 |}
    end in
  let r := fst (check bucket5 1500 "user-1" exhausted_store) in
  fst (getOrCreateState bucket5 "user-1" 1500 exhausted_store) = loaded
  /\ r = {| allowed := geb (calculateTokens bucket5 loaded 1500) 1;
            remaining := floor (calculateTokens bucket5 loaded 1500);
            resetAt :=
              calculateResetAt bucket5 (calculateTokens bucket5 loaded 1500)
                (calculateLastRefill bucket5 loaded 1500);
            retryAfter :=
              if geb (calculateTokens bucket5 loaded 1500) 1 then None
              else Some (calculateRetryAfter bucket5
                           (calculateLastRefill bucket5 loaded 1500) 1500) |}
  /\ calls (snd (check bucket5 1500 "user-1" exhausted_store))
     = calls exhausted_store ++ [CallGet "user-1"]
  /\ (forall key' t, 1500 <= t ->
        fst (Memory.get t key'
               (inner (snd (check bucket5 1500 "user-1" exhausted_store))))
        = fst (Memory.get t key' (inner exhausted_store)))
  /\ fst (checkTimes bucket5 1500 "user-1" 3 exhausted_store)
     = replicate 3 r
  /\ writes (calls (snd (checkTimes bucket5 1500 "user-1" 3
                           exhausted_store)))
     = writes (calls exhausted_store)
  /\ allowed r = geb (calculateTokens bucket5 loaded 1500) 1
  /\ remaining r = floor (calculateTokens bucket5 loaded 1500)
  /\ (fst (Memory.get 1500 "user-1" (inner exhausted_store)) = None ->
      loaded = {| tokens := capacity bucket5; lastRefill := 1500 |}
      /\ calculateTokens bucket5 loaded 1500 == capacity bucket5
      /\ calculateLastRefill bucket5 loaded 1500 == 1500
      /\ allowed r = geb (capacity bucket5) 1
      /\ remaining r = floor (capacity bucket5)).
Proof.
  apply (C6_check_reads_only bucket5 1500 "user-1" 3 exhausted_store).
  reflexivity.
Defined.

(** [check] of an exhausted key: refused while no interval has elapsed,
    one token after 1.5 intervals, and a full bucket again once the entry
    has expired. *)
Example check_of_exhausted_key :
  fst (check bucket5 500 "user-1" exhausted_store)
  = mkResult false 0 5000 (Some 1%Z)
  /\ fst (check bucket5 1500 "user-1" exhausted_store)
     = mkResult true 1 5000 None
  /\ fst (checkTimes bucket5 1500 "user-1" 3 exhausted_store)
     = replicate 3 (mkResult true 1 5000 None)
  /\ fst (check bucket5 10000 "user-1" exhausted_store)
     = mkResult true 5 10000 None.
Proof. vm_compute. repeat split. Qed.

(** The three checks of the suite's "check should not consume tokens". *)
Example check_three_times :
  map remaining
    (fst (checkTimes bucket5 0 "user-1" 3 (mkLogged Memory.empty [])))
  = [5%Z; 5%Z; 5%Z].
Proof. vm_compute. reflexivity. Qed.

(** ** The invariant of the written states *)

Lemma calculateTokens_le_capacity this state now :
  calculateTokens this state now <= capacity this.
Proof. unfold calculateTokens. apply Q.le_min_l. Qed.

Lemma consume_outcome_written this now state n w :
  snd (consume_outcome this now state n) = Some w ->
  n <= calculateTokens this state now
  /\ w = {| tokens := calculateTokens this state now - n;
            lastRefill := calculateLastRefill this state now |}.
Proof.
  unfold consume_outcome.
  destruct (ltb (calculateTokens this state now) n) eqn:Hlt; simpl;
    [discriminate |].
  intros [= <-]. apply ltb_ge in Hlt. split; [assumption | reflexivity].
Qed.

Section SessionFacts.

Context {S : Type} `{StorageAdapter S}.
Variable this : TokenBucket.

Lemma writes_after_check now key (l : Logged S) :
  writes (calls (snd (check this now key l))) = writes (calls l).
Proof.
  rewrite logged_check. cbn [snd calls]. rewrite writes_app. simpl.
  apply app_nil_r.
Qed.

Lemma writes_after_consume now key n (l : Logged S) :
  writes (calls (snd (consume this now key n l)))
  = writes (calls l) ++
    match snd (consume_outcome this now
                 (fst (getOrCreateState this key now (inner l))) n) with
    | Some w => [(key, w, ttlMs this)]
    | None => []
    end.
Proof.
  rewrite logged_consume. cbn [snd calls]. rewrite writes_app. simpl.
  destruct (snd (consume_outcome this now
                   (fst (getOrCreateState this key now (inner l))) n));
    reflexivity.
Qed.

(** Whatever the amounts, a written token count is not negative. *)
Lemma run_writes_nonnegative ops : forall now (l : Logged S),
  Forall (fun w => 0 <= tokens (snd (fst w))) (writes (calls l)) ->
  Forall (fun w => 0 <= tokens (snd (fst w)))
    (writes (calls (snd (run this ops now l)))).
Proof.
  induction ops as [| op ops IH]; intros now l Hl; [exact Hl |].
  destruct op as [key | key n | ms]; cbn [run].
  - destruct (check this now key l) as [r l1] eqn:E.
    specialize (IH now l1).
    destruct (run this ops now l1) as [rs l2]. apply IH.
    replace l1 with (snd (check this now key l)) by (rewrite E; reflexivity).
    rewrite writes_after_check. exact Hl.
  - destruct (consume this now key n l) as [r l1] eqn:E.
    specialize (IH now l1).
    destruct (run this ops now l1) as [rs l2]. apply IH.
    replace l1 with (snd (consume this now key n l))
      by (rewrite E; reflexivity).
    rewrite writes_after_consume. apply Forall_app. split; [exact Hl |].
    destruct (snd (consume_outcome this now
                (fst (getOrCreateState this key now (inner l))) n))
      as [w|] eqn:Hw; [| constructor].
    apply consume_outcome_written in Hw. destruct Hw as [Hge ->].
    constructor; [| constructor]. simpl. lra.
  - apply IH. exact Hl.
Qed.

(** With amounts that are not negative, the count stays within capacity. *)
Lemma run_writes_within_capacity ops : forall now (l : Logged S),
  Forall nonnegative_amount ops ->
  Forall (fun w => within_capacity this (snd (fst w))) (writes (calls l)) ->
  Forall (fun w => within_capacity this (snd (fst w)))
    (writes (calls (snd (run this ops now l)))).
Proof.
  induction ops as [| op ops IH]; intros now l Hops Hl; [exact Hl |].
  apply Forall_cons in Hops. destruct Hops as [Hop Hops].
  destruct op as [key | key n | ms]; cbn [run].
  - destruct (check this now key l) as [r l1] eqn:E.
    specialize (IH now l1 Hops).
    destruct (run this ops now l1) as [rs l2]. apply IH.
    replace l1 with (snd (check this now key l)) by (rewrite E; reflexivity).
    rewrite writes_after_check. exact Hl.
  - destruct (consume this now key n l) as [r l1] eqn:E.
    specialize (IH now l1 Hops).
    destruct (run this ops now l1) as [rs l2]. apply IH.
    replace l1 with (snd (consume this now key n l))
      by (rewrite E; reflexivity).
    rewrite writes_after_consume. apply Forall_app. split; [exact Hl |].
    destruct (snd (consume_outcome this now
                (fst (getOrCreateState this key now (inner l))) n))
      as [w|] eqn:Hw; [| constructor].
    apply consume_outcome_written in Hw. destruct Hw as [Hge ->].
    pose proof (calculateTokens_le_capacity this
                  (fst (getOrCreateState this key now (inner l))) now) as Hcap.
    simpl in Hop.
    constructor; [| constructor]. unfold within_capacity. simpl. lra.
  - apply IH; assumption.
Qed.

(** C8, as the code has it.  For every session of [check]s and [consume]s
    on any keys, over any store, in which no requested amount is negative
    (and the refill interval is positive), every state that [consume]
    writes has [0 <= tokens <= capacity]. *)
Theorem C8_written_states_within_capacity (ops : list Op) (now : number)
    (storage : S) :
  0 < refillInterval this ->
  Forall nonnegative_amount ops ->
  Forall (within_capacity this) (written this ops now storage).
Proof.
  intros _ Hops. unfold written. apply Forall_map.
  apply run_writes_within_capacity; [exact Hops | constructor].
Qed.

(** For a positive refill interval the lower bound holds whatever the
    amounts, also negative ones: no session writes a negative token
    count. *)
Lemma written_states_nonnegative (ops : list Op) (now : number) (storage : S) :
  0 < refillInterval this ->
  Forall (fun st => 0 <= tokens st) (written this ops now storage).
Proof.
  intros _. unfold written. apply Forall_map.
  apply run_writes_nonnegative. constructor.
Qed.

End SessionFacts.

Lemma written_states_nonnegative_witness :
  Forall (fun st => 0 <= tokens st)
    (written bucket5
       [OpConsume "user-1" (-3); OpConsume "user-1" 9; OpAdvance 1500;
        OpConsume "user-1" 6; OpConsume "user-1" (-1)]
       0 Memory.empty).
Proof.
  apply (written_states_nonnegative bucket5).
  reflexivity.
Defined.

(** C8 as stated fails: asked for [-3] tokens, a fresh bucket of five
    writes a count of eight. *)
Lemma C8_negative_amount_overfills :
  written bucket5 [OpConsume "user-1" (-3)] 0 Memory.empty
  = [mkBucketState 8 0]
  /\ ~ Forall (within_capacity bucket5)
        (written bucket5 [OpConsume "user-1" (-3)] 0 Memory.empty).
Proof.
  assert (E : written bucket5 [OpConsume "user-1" (-3)] 0 Memory.empty
              = [mkBucketState 8 0]) by (vm_compute; reflexivity).
  split; [exact E |]. rewrite E. intros Hall.
  apply Forall_cons in Hall. destruct Hall as [[_ Hle] _].
  vm_compute in Hle. apply Hle. reflexivity.
Qed.

Lemma C8_written_states_within_capacity_witness :
  Forall (within_capacity bucket5)
    (written bucket5
       [OpConsume "user-1" 3; OpCheck "user-1"; OpConsume "user-1" 2;
        OpConsume "user-1" 1; OpAdvance 2500; OpConsume "user-2" 0;
        OpConsume "user-1" 2]
       0 Memory.empty).
Proof.
  apply (C8_written_states_within_capacity bucket5).
  - reflexivity.
  - repeat constructor; simpl; discriminate.
Defined.

(** That session writes four states. *)
Example session_written :
  written bucket5
    [OpConsume "user-1" 3; OpCheck "user-1"; OpConsume "user-1" 2;
     OpConsume "user-1" 1; OpAdvance 2500; OpConsume "user-2" 0;
     OpConsume "user-1" 2]
    0 Memory.empty
  = [mkBucketState 2 0; mkBucketState 0 0; mkBucketState 5 2500;
     mkBucketState 0 2000].
Proof. vm_compute. reflexivity. Qed.

(** ** Amounts that are not positive *)

Lemma calculateTokens_nonnegative this state now :
  0 < refillInterval this -> 0 <= refillRate this -> 0 <= capacity this ->
  0 <= tokens state -> lastRefill state <= now ->
  0 <= calculateTokens this state now.
Proof.
  intros Hint Hrate Hcap Htok Hnow.
  pose proof (intervalsElapsed_nonneg this state now Hint Hnow) as Hk.
  unfold calculateTokens. fold (intervalsElapsed this state now).
  apply Q.min_glb; [exact Hcap |].
  assert (0 <= ofZ (intervalsElapsed this state now) * refillRate this).
  { apply Qmult_le_0_compat; [| exact Hrate].
    unfold ofZ. rewrite Zle_Qle in Hk. exact Hk. }
  lra.
Qed.

Section AmountFacts.

Context {S : Type} `{StorageAdapter S}.
Variable this : TokenBucket.

(** C10.  Admission is decided by the comparison [tokens(now) < n] alone.
    For a limiter with a positive interval and non-negative rate and
    capacity, and a loaded state with [0 <= tokens] and
    [lastRefill <= now]: [consume (key, 0)] is admitted, also when the
    computed count is zero, and [consume (key, n)] with [n < 0] is admitted
    and writes [tokens(now) - n], more than the computed count. *)
Theorem C10_nonpositive_amounts_admitted (now : number) (key : string)
    (n : number) (l : Logged S) :
  0 < refillInterval this -> 0 <= refillRate this -> 0 <= capacity this ->
  0 <= tokens (fst (getOrCreateState this key now l)) ->
  lastRefill (fst (getOrCreateState this key now l)) <= now ->
  let current :=
    calculateTokens this (fst (getOrCreateState this key now l)) now in
  let r := fst (consume this now key n l) in
  allowed r = negb (ltb current n)
  /\ (n == 0 -> allowed r = true)
  /\ (n < 0 ->
      allowed r = true
      /\ exists w,
           writes (calls (snd (consume this now key n l)))
           = writes (calls l) ++ [(key, w, ttlMs this)]
           /\ tokens w = current - n
           /\ current < tokens w).
Proof.
  intros Hint Hrate Hcap Htok Hnow current r.
  pose proof (calculateTokens_nonnegative this _ now Hint Hrate Hcap Htok Hnow)
    as Hcur.
  fold current in Hcur.
  assert (Hr : allowed r = negb (ltb current n)).
  { subst r current. rewrite consume_result, consume_outcome_result.
    reflexivity. }
  split; [exact Hr |]. split.
  - intros Hn. rewrite Hr. apply negb_true_iff, ltb_ge. rewrite Hn. exact Hcur.
  - intros Hn.
    assert (Hge : ltb current n = false) by (apply ltb_ge; lra).
    split; [rewrite Hr, Hge; reflexivity |].
    exists {| tokens := current - n;
              lastRefill := calculateLastRefill this
                              (fst (getOrCreateState this key now l)) now |}.
    split; [| split; [reflexivity | simpl; lra]].
    assert (Hst : fst (getOrCreateState this key now (inner l))
                  = fst (getOrCreateState this key now l))
      by (rewrite logged_state; reflexivity).
    rewrite writes_after_consume, Hst.
    unfold consume_outcome. fold current. rewrite Hge. reflexivity.
Qed.

End AmountFacts.

Lemma C10_nonpositive_amounts_admitted_witness :
  let current :=
    calculateTokens bucket5
      (fst (getOrCreateState bucket5 "user-1" 0 exhausted_store)) 0 in
  let r := fst (consume bucket5 0 "user-1" (-2) exhausted_store) in
  allowed r = negb (ltb current (-2))
  /\ (-2 == 0 -> allowed r = true)
  /\ (-2 < 0 ->
      allowed r = true
      /\ exists w,
           writes (calls (snd (consume bucket5 0 "user-1" (-2)
                                 exhausted_store)))
           = writes (calls exhausted_store) ++ [("user-1", w, ttlMs bucket5)]
           /\ tokens w = current - (-2)
           /\ current < tokens w).
Proof.
  apply (C10_nonpositive_amounts_admitted bucket5 0 "user-1" (-2)
           exhausted_store).
  - reflexivity.
  - discriminate.
  - discriminate.
  - vm_compute. discriminate.
  - vm_compute. discriminate.
Defined.

(** An exhausted bucket: one token is refused, none is granted, and a
    request for minus two tokens is granted and leaves two in the store. *)
Example exhausted_bucket_amounts :
  allowed (fst (consume bucket5 0 "user-1" 1 exhausted_store)) = false
  /\ fst (consume bucket5 0 "user-1" 0 exhausted_store)
     = mkResult true 0 5000 None
  /\ fst (consume bucket5 0 "user-1" (-2) exhausted_store)
     = mkResult true 2 3000 None
  /\ writes (calls (snd (consume bucket5 0 "user-1" (-2) exhausted_store)))
     = [("user-1", mkBucketState 2 0, 10000)].
Proof. vm_compute. repeat split. Qed.

(** ** The TTL of the writes *)

Lemma ttlMs_new options :
  ttlMs (TokenBucket_new options)
  = ofZ (ceil (opt_capacity options / opt_refillRate options
               * opt_refillInterval options)) * 2.
Proof. reflexivity. Qed.


(** Where the bucket fills in a whole number [q] of intervals and the
    interval is a whole number of milliseconds, the TTL of the code is the
    TTL of the specification. *)
Lemma ttl_agrees_on_whole_ratio options (q i : Z) :
  opt_capacity options / opt_refillRate options == ofZ q ->
  opt_refillInterval options == ofZ i ->
  ttlMs (TokenBucket_new options) == spec_ttl options.
Proof.
  intros Hq Hi. rewrite ttlMs_new. unfold spec_ttl, ceil, ofZ in *.
  rewrite (Qceiling_comp _ _ Hq), Qceiling_Z.
  assert (E : opt_capacity options / opt_refillRate options
              * opt_refillInterval options == inject_Z (q * i)).
  { rewrite Hq, Hi, inject_Z_mult. reflexivity. }
  rewrite (Qceiling_comp _ _ E), Qceiling_Z, Hi, inject_Z_mult. ring.
Qed.

(** C3, at the input where the code departs from it.  For capacity 1, five
    tokens per 1000 ms: the TTL handed to the store is 400 ms, the specification's
    formula gives 2000 ms, and an empty bucket is full again after 1000 ms
    ([calculateResetAt]), so the entry expires while the bucket is empty:
    on the reference store a key exhausted at 0 is admitted again at 400,
    where the same engine on a store that keeps the entry rejects it. *)
Theorem C3_ttl_shorter_than_refill :
  ttlMs burst1 = 400
  /\ spec_ttl (mkOptions 1 5 1000) = 2000
  /\ calculateResetAt burst1 0 0 = 1000
  /\ map (fun w => snd w)
       (writes (calls (snd (run burst1 [OpConsume "user-1" 1] 0
                              (mkLogged Memory.empty [])))))
     = [400]
  /\ map allowed
       (fst (run burst1
               [OpConsume "user-1" 1; OpAdvance 400; OpConsume "user-1" 1]
               0 Memory.empty))
     = [true; true]
  /\ map allowed
       (fst (run burst1
               [OpConsume "user-1" 1; OpAdvance 400; OpConsume "user-1" 1]
               0 (mkMock ∅)))
     = [true; false].
Proof. vm_compute. repeat split. Qed.

(** The two formulas also part where the ratio is not whole: a bucket of
    five refilled by two. *)
Example ttl_five_by_two :
  ttlMs (TokenBucket_new (mkOptions 5 2 1000)) = 5000
  /\ spec_ttl (mkOptions 5 2 1000) = 6000.
Proof. vm_compute. split; reflexivity. Qed.

(** ** Construction *)

(** C4, as the code has it.  For every configuration, also one with a
    non-positive capacity, refill rate or refill interval, constructing the
    limiter completes normally, and the limiter holds the three options as
    they were given: nothing is validated. *)
Theorem C4_construction_never_fails {S : Type} (config : RateLimiterConfig S) :
  exists limiter,
    RateLimiter_new config = Normal limiter
    /\ capacity (algorithm limiter) = opt_capacity (options config)
    /\ refillRate (algorithm limiter) = opt_refillRate (options config)
    /\ refillInterval (algorithm limiter)
       = opt_refillInterval (options config).
Proof.
  unfold RateLimiter_new.
  destruct (cfg_storage config) as [s|]; eexists; repeat split.
Qed.

(** C4 as stated fails: a capacity of 0 is accepted. *)
Lemma C4_nonpositive_options_accepted :
  nonpositive_options (mkOptions 0 1 1000)
  /\ RateLimiter_new (mkConfig (mkOptions 0 1 1000) (@None MemoryStorage))
     = Normal {| algorithm := mkTokenBucket 0 1 1000 0;
                 storage := inr Memory.empty;
                 ownsStorage := true |}
  /\ ~ (forall options : RateLimiterOptions,
          nonpositive_options options ->
          exists message,
            RateLimiter_new (mkConfig options (@None MemoryStorage))
            = Throw message).
Proof.
  split; [left; discriminate |]. split; [vm_compute; reflexivity |].
  intros Hclaim.
  destruct (Hclaim (mkOptions 0 1 1000)) as [message Hthrow];
    [left; discriminate | discriminate Hthrow].
Qed.

(** With a capacity of 0 the calls go through as well: every request for a
    token is answered, with a rejection. *)
Example zero_capacity_rejects :
  match RateLimiter_new (mkConfig (mkOptions 0 1 1000) (@None MemoryStorage))
  with
  | Normal limiter =>
      fst (RateLimiter_consume limiter 0 "user-1" 1)
      = mkResult false 0 0 (Some 1%Z)
  | Throw _ => False
  end.
Proof. vm_compute. reflexivity. Qed.

(** ** The sweep of the reference store *)

Lemma memory_cleanup_lookup now key (m : MemoryStorage) :
  store (Memory.cleanup now m) !! key
  = match store m !! key with
    | Some entry => if leb (expiresAt entry) now then None else Some entry
    | None => None
    end.
Proof.
  unfold Memory.cleanup. simpl.
  destruct (store m !! key) as [entry|] eqn:E.
  - destruct (leb (expiresAt entry) now) eqn:Hexp.
    + apply map_lookup_filter_None. right. intros x Hx. simpl.
      rewrite E in Hx. injection Hx as <-. rewrite Hexp. discriminate.
    + apply map_lookup_filter_Some. split; [exact E | exact Hexp].
  - apply map_lookup_filter_None. left. exact E.
Qed.

(** The sweep is maintenance only: no later read sees a difference. *)
Lemma memory_cleanup_observe now key (m : MemoryStorage) t :
  now <= t ->
  fst (Memory.get t key (Memory.cleanup now m)) = fst (Memory.get t key m).
Proof.
  intros Ht. unfold Memory.get. rewrite memory_cleanup_lookup.
  destruct (store m !! key) as [entry|]; [| reflexivity].
  destruct (leb (expiresAt entry) now) eqn:Hexp.
  - apply leb_le in Hexp.
    assert (Hexp' : leb (expiresAt entry) t = true) by (apply leb_le; lra).
    rewrite Hexp'. reflexivity.
  - destruct (leb (expiresAt entry) t); reflexivity.
Qed.

(** ** The scenarios of the engine's test suite, on its MockStorage *)

Example suite_refill_over_time :
  map remaining
    (fst (run bucket5
            [OpConsume "user-1" 1; OpConsume "user-1" 1; OpConsume "user-1" 1;
             OpConsume "user-1" 1; OpConsume "user-1" 1; OpCheck "user-1";
             OpAdvance 1000; OpCheck "user-1";
             OpAdvance 2000; OpCheck "user-1";
             OpAdvance 7000; OpCheck "user-1"]
            0 (mkMock ∅)))
  = [4; 3; 2; 1; 0; 0; 1; 3; 5]%Z.
Proof. vm_compute. reflexivity. Qed.

Example suite_multi_token_consume :
  map (fun r => (allowed r, remaining r))
    (fst (run bucket5
            [OpConsume "user-1" 3; OpConsume "user-1" 2; OpConsume "user-1" 1]
            0 (mkMock ∅)))
  = [(true, 2%Z); (true, 0%Z); (false, 0%Z)].
Proof. vm_compute. reflexivity. Qed.

Example suite_independent_keys :
  map remaining
    (fst (run bucket5
            [OpConsume "user-1" 1; OpConsume "user-1" 1; OpConsume "user-2" 1;
             OpCheck "user-1"; OpCheck "user-2"]
            0 (mkMock ∅)))
  = [4; 3; 4; 3; 4]%Z.
Proof. vm_compute. reflexivity. Qed.

(** ** More arithmetic of the refill schedule *)

Lemma floor_unique q (k : Z) :
  inject_Z k <= q -> q < inject_Z k + 1 -> floor q = k.
Proof.
  intros Hlo Hhi. symmetry.
  replace (floor q) with (floor (q / 1))
    by (unfold floor; apply Qfloor_comp; field).
  apply whole_intervals_unique; [reflexivity |].
  unfold whole_intervals, ofZ. split; lra.
Qed.

Lemma floor_shift q (k : Z) : floor (q + inject_Z k) = (floor q + k)%Z.
Proof.
  apply floor_unique.
  - rewrite inject_Z_plus. pose proof (Qfloor_le q). unfold floor. lra.
  - rewrite inject_Z_plus. pose proof (Qlt_floor q) as Hhi.
    rewrite inject_Z_plus in Hhi. unfold floor.
    change (inject_Z 1) with 1 in Hhi. lra.
Qed.

Lemma div_le_compat a b c : 0 < c -> a <= b -> a / c <= b / c.
Proof.
  intros Hc Hab. apply Qle_shift_div_l; [exact Hc |].
  assert (E : a / c * c == a)
    by (field; intro E0; rewrite E0 in Hc; discriminate).
  rewrite E. exact Hab.
Qed.

Lemma div_lt_compat a b c : 0 < c -> a < b -> a / c < b / c.
Proof.
  intros Hc Hab. apply Qlt_shift_div_l; [exact Hc |].
  assert (E : a / c * c == a)
    by (field; intro E0; rewrite E0 in Hc; discriminate).
  rewrite E. exact Hab.
Qed.

Lemma intervalsElapsed_mono this state now1 now2 :
  0 < refillInterval this -> now1 <= now2 ->
  (intervalsElapsed this state now1 <= intervalsElapsed this state now2)%Z.
Proof.
  intros Hint Hle. unfold intervalsElapsed, floor.
  apply Qfloor_resp_le. apply div_le_compat; [exact Hint | lra].
Qed.

Lemma Qmin_absorb cap a b :
  0 <= b -> Qmin cap (Qmin cap a + b) == Qmin cap (a + b).
Proof.
  intros Hb.
  destruct (Q.min_spec cap a) as [[H1 E1] | [H1 E1]];
  destruct (Q.min_spec cap (Qmin cap a + b)) as [[H2 E2] | [H2 E2]];
  destruct (Q.min_spec cap (a + b)) as [[H3 E3] | [H3 E3]];
  lra.
Qed.

(** The refill never takes tokens away as time passes, and the refill
    instant never moves back. *)
Theorem refill_monotone_in_time (this : TokenBucket) (state : BucketState)
    (now1 now2 : number) :
  0 < refillInterval this -> 0 <= refillRate this -> now1 <= now2 ->
  calculateTokens this state now1 <= calculateTokens this state now2
  /\ calculateLastRefill this state now1 <= calculateLastRefill this state now2.
Proof.
  intros Hint Hrate Hle.
  pose proof (intervalsElapsed_mono this state now1 now2 Hint Hle) as Hk.
  rewrite Zle_Qle in Hk.
  unfold calculateTokens, calculateLastRefill.
  fold (intervalsElapsed this state now1) (intervalsElapsed this state now2).
  unfold ofZ. split.
  - apply Q.min_le_compat_l.
    assert (inject_Z (intervalsElapsed this state now1) * refillRate this
            <= inject_Z (intervalsElapsed this state now2) * refillRate this).
    { destruct (Qle_lt_or_eq _ _ Hrate) as [Hpos | Hz].
      - apply Qmult_le_r; assumption.
      - rewrite <- Hz. lra. }
    lra.
  - assert (inject_Z (intervalsElapsed this state now1) * refillInterval this
            <= inject_Z (intervalsElapsed this state now2)
               * refillInterval this)
      by (apply Qmult_le_r; assumption).
    lra.
Qed.

Lemma refill_monotone_in_time_witness :
  calculateTokens bucket5 (mkBucketState 1 0) 1500
  <= calculateTokens bucket5 (mkBucketState 1 0) 3200
  /\ calculateLastRefill bucket5 (mkBucketState 1 0) 1500
     <= calculateLastRefill bucket5 (mkBucketState 1 0) 3200.
Proof.
  apply (refill_monotone_in_time bucket5 (mkBucketState 1 0) 1500 3200).
  - reflexivity.
  - discriminate.
  - discriminate.
Defined.

(** Refilling in two steps is refilling in one: the state computed for
    [now1], refilled again for a later [now2], is the stored state refilled
    for [now2].  Nothing is lost or gained by when the refill is computed. *)
Theorem refill_composes (this : TokenBucket) (state : BucketState)
    (now1 now2 : number) :
  0 < refillInterval this -> 0 <= refillRate this -> now1 <= now2 ->
  let mid := {| tokens := calculateTokens this state now1;
                lastRefill := calculateLastRefill this state now1 |} in
  calculateTokens this mid now2 == calculateTokens this state now2
  /\ calculateLastRefill this mid now2 == calculateLastRefill this state now2.
Proof.
  intros Hint Hrate Hle mid.
  pose proof (intervalsElapsed_mono this state now1 now2 Hint Hle) as Hk.
  assert (Hne : ~ refillInterval this == 0)
    by (intro E; rewrite E in Hint; discriminate).
  assert (Hmid : intervalsElapsed this mid now2
                 = (intervalsElapsed this state now2
                    - intervalsElapsed this state now1)%Z).
  { unfold intervalsElapsed at 1. subst mid. cbn [lastRefill].
    unfold calculateLastRefill. fold (intervalsElapsed this state now1).
    unfold ofZ.
    replace (intervalsElapsed this state now2
             - intervalsElapsed this state now1)%Z
      with (floor ((now2 - lastRefill state) / refillInterval this)
            + - intervalsElapsed this state now1)%Z
      by (unfold intervalsElapsed; lia).
    rewrite <- floor_shift. unfold floor. apply Qfloor_comp.
    rewrite inject_Z_opp. field. exact Hne. }
  unfold calculateTokens at 1. unfold calculateLastRefill at 1.
  fold (intervalsElapsed this mid now2). rewrite Hmid.
  subst mid. cbn [tokens lastRefill].
  unfold calculateTokens, calculateLastRefill.
  fold (intervalsElapsed this state now1) (intervalsElapsed this state now2).
  unfold ofZ. unfold Z.sub. rewrite inject_Z_plus, inject_Z_opp.
  split.
  - rewrite Qmin_absorb.
    + assert (E : tokens state
                  + inject_Z (intervalsElapsed this state now1)
                    * refillRate this
                  + (inject_Z (intervalsElapsed this state now2)
                     + - inject_Z (intervalsElapsed this state now1))
                    * refillRate this
                  == tokens state
                     + inject_Z (intervalsElapsed this state now2)
                       * refillRate this) by ring.
      rewrite E. reflexivity.
    + apply Qmult_le_0_compat; [| exact Hrate].
      rewrite Zle_Qle in Hk. lra.
  - ring.
Qed.

Lemma refill_composes_witness :
  let mid := {| tokens := calculateTokens bucket5 (mkBucketState 1 0) 1500;
                lastRefill :=
                  calculateLastRefill bucket5 (mkBucketState 1 0) 1500 |} in
  calculateTokens bucket5 mid 3200
  == calculateTokens bucket5 (mkBucketState 1 0) 3200
  /\ calculateLastRefill bucket5 mid 3200
     == calculateLastRefill bucket5 (mkBucketState 1 0) 3200.
Proof.
  apply (refill_composes bucket5 (mkBucketState 1 0) 1500 3200).
  - reflexivity.
  - discriminate.
  - discriminate.
Defined.

(** ** [calculateResetAt] *)

Lemma intervalsElapsed_at_multiple this state (m : Z) :
  0 < refillInterval this ->
  intervalsElapsed this state
    (lastRefill state + inject_Z m * refillInterval this) = m.
Proof.
  intros Hint. unfold intervalsElapsed.
  assert (Hne : ~ refillInterval this == 0)
    by (intro E; rewrite E in Hint; discriminate).
  assert (E : (lastRefill state + inject_Z m * refillInterval this
               - lastRefill state) / refillInterval this == inject_Z m)
    by (field; exact Hne).
  unfold floor. rewrite (Qfloor_comp _ _ E). apply Qfloor_Z.
Qed.

(** [resetAt] is the instant at which the bucket is full again: it is not
    before the last refill, the refill computed for it reaches the
    capacity, and while the bucket is below capacity the refill computed
    for any earlier instant does not. *)
Theorem resetAt_is_when_full (this : TokenBucket) (state : BucketState) :
  0 < refillInterval this -> 0 < refillRate this ->
  let reset := calculateResetAt this (tokens state) (lastRefill state) in
  lastRefill state <= reset
  /\ calculateTokens this state reset == capacity this
  /\ (tokens state < capacity this ->
      forall now, now < reset ->
        calculateTokens this state now < capacity this).
Proof.
  intros Hint Hrate reset. subst reset. unfold calculateResetAt.
  destruct (geb (tokens state) (capacity this)) eqn:Hfull.
  - apply geb_le in Hfull. split; [lra |]. split; [| intros; lra].
    unfold calculateTokens. fold (intervalsElapsed this state (lastRefill state)).
    assert (Hk : intervalsElapsed this state (lastRefill state) = 0%Z).
    { unfold intervalsElapsed, floor.
      assert (E : (lastRefill state - lastRefill state) / refillInterval this
                  == 0) by (unfold Qdiv; ring).
      rewrite (Qfloor_comp _ _ E). reflexivity. }
    rewrite Hk. unfold ofZ. change (inject_Z 0) with 0.
    apply Q.min_l. lra.
  - assert (Hlt : tokens state < capacity this).
    { apply Qnot_le_lt. intro Hge. apply geb_le in Hge. congruence. }
    set (needed := (capacity this - tokens state) / refillRate this).
    assert (Hneeded : needed * refillRate this == capacity this - tokens state).
    { subst needed. field. intro E. rewrite E in Hrate. discriminate. }
    pose proof (Qle_ceiling needed) as Hup.
    pose proof (Qceiling_lt needed) as Hdown.
    unfold Z.sub in Hdown. rewrite inject_Z_plus in Hdown.
    change (inject_Z (- (1))) with (- (1)) in Hdown.
    fold (ceil needed) in Hup, Hdown |- *. unfold ofZ.
    assert (Hpos : 0 < needed).
    { subst needed. apply Qlt_shift_div_l; [exact Hrate | lra]. }
    assert (Hm : 0 <= inject_Z (ceil needed)) by lra.
    split; [| split].
    + assert (0 <= inject_Z (ceil needed) * refillInterval this)
        by (apply Qmult_le_0_compat; lra).
      lra.
    + unfold calculateTokens.
      fold (intervalsElapsed this state
              (lastRefill state + inject_Z (ceil needed) * refillInterval this)).
      rewrite intervalsElapsed_at_multiple by exact Hint.
      apply Q.min_l. unfold ofZ.
      assert (needed * refillRate this
              <= inject_Z (ceil needed) * refillRate this)
        by (apply Qmult_le_r; assumption).
      lra.
    + intros _ now Hnow.
      assert (Hk : (intervalsElapsed this state now < ceil needed)%Z).
      { rewrite Zlt_Qlt.
        eapply Qle_lt_trans; [apply Qfloor_le |].
        apply Qlt_shift_div_r; [exact Hint | lra]. }
      assert (Hk' : inject_Z (intervalsElapsed this state now)
                    <= inject_Z (ceil needed) + - (1)).
      { assert (intervalsElapsed this state now <= ceil needed + - (1))%Z
          by lia.
        rewrite Zle_Qle, inject_Z_plus in H. exact H. }
      unfold calculateTokens. fold (intervalsElapsed this state now).
      eapply Qle_lt_trans; [apply Q.le_min_r |]. unfold ofZ.
      assert (inject_Z (intervalsElapsed this state now) * refillRate this
              <= (inject_Z (ceil needed) + - (1)) * refillRate this)
        by (apply Qmult_le_r; assumption).
      assert ((inject_Z (ceil needed) + - (1)) * refillRate this
              < needed * refillRate this)
        by (apply Qmult_lt_r; assumption).
      lra.
Qed.

Lemma resetAt_is_when_full_witness :
  let reset := calculateResetAt bucket5 (tokens (mkBucketState 2 0))
                 (lastRefill (mkBucketState 2 0)) in
  lastRefill (mkBucketState 2 0) <= reset
  /\ calculateTokens bucket5 (mkBucketState 2 0) reset == capacity bucket5
  /\ (tokens (mkBucketState 2 0) < capacity bucket5 ->
      forall now, now < reset ->
        calculateTokens bucket5 (mkBucketState 2 0) now < capacity bucket5).
Proof.
  apply (resetAt_is_when_full bucket5 (mkBucketState 2 0)); reflexivity.
Defined.

(** The reset instant of a bucket holding two of five tokens. *)
Example resetAt_two_of_five :
  calculateResetAt bucket5 2 0 = 3000
  /\ calculateTokens bucket5 (mkBucketState 2 0) 2999 == 4.
Proof. vm_compute. split; reflexivity. Qed.

(** ** [calculateRetryAfter] *)

(** Waiting [retryAfter] seconds is enough and not excessive: by then at
    least one more whole interval has elapsed, and the wait is at most one
    interval rounded up to seconds. *)
Theorem retryAfter_reaches_next_refill (this : TokenBucket)
    (state : BucketState) (now : number) :
  0 < refillInterval this ->
  let wait :=
    calculateRetryAfter this (calculateLastRefill this state now) now in
  (intervalsElapsed this state now + 1
   <= intervalsElapsed this state (now + 1000 * inject_Z wait))%Z
  /\ (wait <= ceil (refillInterval this / 1000))%Z.
Proof.
  intros Hint wait.
  destruct (calculateLastRefill_bracket this state now Hint) as [Hlo Hhi].
  set (x := (calculateLastRefill this state now + refillInterval this - now)
            / 1000).
  assert (Hwait : wait = Z.max 0 (ceil x)) by reflexivity.
  assert (Hx : x * 1000 == calculateLastRefill this state now
                           + refillInterval this - now)
    by (subst x; field).
  pose proof (Qle_ceiling x) as Hceil. fold (ceil x) in Hceil.
  assert (Hge : inject_Z (ceil x) <= inject_Z wait).
  { rewrite <- Zle_Qle. lia. }
  split.
  - replace (intervalsElapsed this state now + 1)%Z
      with (floor (inject_Z (intervalsElapsed this state now + 1)))
      by (unfold floor; apply Qfloor_Z).
    unfold intervalsElapsed at 2. unfold floor. apply Qfloor_resp_le.
    apply Qle_shift_div_l; [exact Hint |].
    rewrite inject_Z_plus. unfold calculateLastRefill in Hx.
    fold (intervalsElapsed this state now) in Hx. unfold ofZ in Hx.
    change (inject_Z 1) with 1. lra.
  - assert (Hxle : x <= refillInterval this / 1000).
    { subst x. apply div_le_compat; [reflexivity | lra]. }
    apply Qceiling_resp_le in Hxle. fold (ceil x) in Hxle.
    fold (ceil (refillInterval this / 1000)) in Hxle.
    assert (0 <= ceil (refillInterval this / 1000))%Z.
    { apply Z.lt_le_incl, ceil_positive.
      apply Qlt_shift_div_l; [reflexivity | lra]. }
    lia.
Qed.

Lemma retryAfter_reaches_next_refill_witness :
  let wait :=
    calculateRetryAfter bucket5
      (calculateLastRefill bucket5 (mkBucketState 0 0) 1300) 1300 in
  (intervalsElapsed bucket5 (mkBucketState 0 0) 1300 + 1
   <= intervalsElapsed bucket5 (mkBucketState 0 0)
        (1300 + 1000 * inject_Z wait))%Z
  /\ (wait <= ceil (refillInterval bucket5 / 1000))%Z.
Proof.
  apply (retryAfter_reaches_next_refill bucket5 (mkBucketState 0 0) 1300).
  reflexivity.
Defined.

(** ** The TTL fixed by the constructor *)

Lemma ttlMs_lower_bound options :
  2 * (opt_capacity options / opt_refillRate options
       * opt_refillInterval options)
  <= ttlMs (TokenBucket_new options).
Proof.
  rewrite ttlMs_new. unfold ofZ, ceil.
  pose proof (Qle_ceiling (opt_capacity options / opt_refillRate options
                           * opt_refillInterval options)).
  lra.
Qed.

Lemma ttl_pays_capacity options :
  valid_options options ->
  capacity (TokenBucket_new options) * refillInterval (TokenBucket_new options)
  <= ttlMs (TokenBucket_new options) * refillRate (TokenBucket_new options).
Proof.
  intros (Hcap & Hrate & Hint).
  pose proof (ttlMs_lower_bound options) as Httl.
  cbn [capacity refillInterval refillRate TokenBucket_new].
  set (c := opt_capacity options) in *.
  set (r := opt_refillRate options) in *.
  set (i := opt_refillInterval options) in *.
  assert (Hr : ~ r == 0) by (intro E; rewrite E in Hrate; discriminate).
  assert (E : c * i == c / r * i * r) by (field; exact Hr).
  assert (Hq : 0 < c / r) by (apply Qlt_shift_div_l; [exact Hrate | lra]).
  assert (Hqi : 0 < c / r * i) by (apply Qmult_lt_0_compat; assumption).
  assert (c / r * i * r <= ttlMs (TokenBucket_new options) * r)
    by (apply Qmult_le_r; [exact Hrate | lra]).
  lra.
Qed.

(** For positive options the TTL is positive, and it pays for the whole
    capacity at the refill rate: [capacity * refillInterval <=
    ttlMs * refillRate].  When the rate does not exceed the capacity, the
    TTL also covers the time an empty bucket takes to fill up. *)
Theorem ttl_covers_refill (options : RateLimiterOptions) (lastRefill : number) :
  valid_options options ->
  let this := TokenBucket_new options in
  0 < ttlMs this
  /\ capacity this * refillInterval this <= ttlMs this * refillRate this
  /\ (refillRate this <= capacity this ->
      calculateResetAt this 0 lastRefill <= lastRefill + ttlMs this).
Proof.
  intros (Hcap & Hrate & Hint) this.
  pose proof (ttlMs_lower_bound options) as Httl. fold this in Httl.
  set (c := opt_capacity options) in *.
  set (r := opt_refillRate options) in *.
  set (i := opt_refillInterval options) in *.
  assert (Hr : ~ r == 0) by (intro E; rewrite E in Hrate; discriminate).
  assert (Hq : 0 < c / r) by (apply Qlt_shift_div_l; [exact Hrate | lra]).
  assert (Hqi : 0 < c / r * i) by (apply Qmult_lt_0_compat; assumption).
  split; [lra |]. split.
  - change (capacity this) with c. change (refillInterval this) with i.
    change (refillRate this) with r.
    assert (E : c * i == c / r * i * r) by (field; exact Hr).
    assert (c / r * i * r <= ttlMs this * r)
      by (apply Qmult_le_r; [exact Hrate | lra]).
    lra.
  - change (capacity this) with c. change (refillRate this) with r.
    intros Hrc. unfold calculateResetAt.
    change (capacity this) with c. change (refillRate this) with r.
    change (refillInterval this) with i.
    assert (Hge : geb 0 c = false).
    { apply not_true_iff_false. rewrite geb_le. apply Qlt_not_le. exact Hcap. }
    rewrite Hge. unfold ofZ.
    assert (E : (c - 0) / r == c / r) by (field; exact Hr).
    unfold ceil. rewrite (Qceiling_comp _ _ E).
    pose proof (Qceiling_lt (c / r)) as Hdown.
    unfold Z.sub in Hdown. rewrite inject_Z_plus in Hdown.
    change (inject_Z (- (1))) with (- (1)) in Hdown.
    assert (H1 : 1 <= c / r)
      by (apply Qle_shift_div_l; [exact Hrate | lra]).
    assert (H2 : (inject_Z (Qceiling (c / r)) + - (1)) * i < c / r * i)
      by (apply Qmult_lt_r; assumption).
    assert (H3 : 1 * i <= c / r * i)
      by (apply Qmult_le_r; assumption).
    lra.
Qed.

Lemma ttl_covers_refill_witness :
  let this := TokenBucket_new (mkOptions 5 2 1000) in
  0 < ttlMs this
  /\ capacity this * refillInterval this <= ttlMs this * refillRate this
  /\ (refillRate this <= capacity this ->
      calculateResetAt this 0 700 <= 700 + ttlMs this).
Proof.
  apply (ttl_covers_refill (mkOptions 5 2 1000) 700).
  repeat split.
Defined.

(** ** [check] and [consume] together, on the reference store *)

Lemma memory_get_lookup_ext t key (m1 m2 : MemoryStorage) :
  store m1 !! key = store m2 !! key ->
  fst (Memory.get t key m1) = fst (Memory.get t key m2).
Proof.
  intros E. unfold Memory.get. rewrite E.
  destruct (store m2 !! key) as [entry|]; [| reflexivity].
  destruct (leb (expiresAt entry) t); reflexivity.
Qed.

Lemma memory_get_other now key (m : MemoryStorage) key' :
  key' <> key ->
  store (snd (Memory.get now key m)) !! key' = store m !! key'.
Proof.
  intros Hne. unfold Memory.get.
  destruct (store m !! key) as [entry|]; [| reflexivity].
  destruct (leb (expiresAt entry) now); [| reflexivity].
  simpl. apply lookup_delete_ne. congruence.
Qed.

Lemma memory_state_lookup_ext this t key (m1 m2 : MemoryStorage) :
  fst (Memory.get t key m1) = fst (Memory.get t key m2) ->
  fst (getOrCreateState this key t m1) = fst (getOrCreateState this key t m2).
Proof.
  intros E. rewrite !getOrCreateState_get. cbn [fst].
  change (storage_get t key) with (Memory.get t key). rewrite E. reflexivity.
Qed.

Lemma memory_check_store this now key (m : MemoryStorage) :
  snd (check this now key m) = snd (Memory.get now key m).
Proof.
  rewrite check_unfold, getOrCreateState_get. reflexivity.
Qed.

Lemma intervalsElapsed_after_refill this state now tk :
  0 < refillInterval this ->
  intervalsElapsed this
    {| tokens := tk;
       lastRefill := calculateLastRefill this state now |} now = 0%Z.
Proof.
  intros Hint.
  destruct (calculateLastRefill_bracket this state now Hint) as [Hlo Hhi].
  unfold intervalsElapsed. cbn [lastRefill]. apply floor_unique.
  - change (inject_Z 0) with 0. apply Qle_shift_div_l; [exact Hint | lra].
  - change (inject_Z 0) with 0. apply Qlt_shift_div_r; [exact Hint | lra].
Qed.

(** What an admitted [consume] reports is what the next [check] sees: at the
    same instant, [check] loads the written state, computes the reduced
    count for it and reports the same [remaining]. *)
Theorem consume_then_check_agrees (this : TokenBucket) (now : number)
    (key : string) (n : number) (m : MemoryStorage) :
  0 < refillInterval this -> 0 < ttlMs this -> 0 <= n ->
  n <= calculateTokens this (fst (getOrCreateState this key now m)) now ->
  let current :=
    calculateTokens this (fst (getOrCreateState this key now m)) now in
  let after := snd (consume this now key n m) in
  allowed (fst (consume this now key n m)) = true
  /\ calculateTokens this (fst (getOrCreateState this key now after)) now
     == current - n
  /\ remaining (fst (check this now key after))
     = remaining (fst (consume this now key n m))
  /\ allowed (fst (check this now key after)) = geb (current - n) 1.
Proof.
  intros Hint Httl Hn Hadm current after.
  subst after. rewrite (consume_admitted_store this now key n m Hadm).
  cbn [fst snd allowed remaining buildResult].
  change (storage_set now key) with (Memory.set now key).
  rewrite check_result, memory_state_written by exact Httl.
  cbn [fst]. fold current.
  set (w := {| tokens := current - n;
               lastRefill := calculateLastRefill this
                 (fst (getOrCreateState this key now m)) now |}).
  assert (Hw : calculateTokens this w now == current - n).
  { unfold calculateTokens. fold (intervalsElapsed this w now).
    subst w.
    rewrite (intervalsElapsed_after_refill this _ now (current - n) Hint).
    cbn [tokens]. unfold ofZ. change (inject_Z 0) with 0.
    pose proof (calculateTokens_le_capacity this
                  (fst (getOrCreateState this key now m)) now) as Hcap.
    fold current in Hcap.
    assert (E : current - n + 0 * refillRate this == current - n) by ring.
    rewrite E. apply Q.min_r. lra. }
  split; [reflexivity |]. split; [exact Hw |].
  unfold check_outcome. cbn [allowed remaining buildResult]. split.
  - unfold floor. apply Qfloor_comp. exact Hw.
  - apply geb_compat. exact Hw.
Qed.

Lemma consume_then_check_agrees_witness :
  let current :=
    calculateTokens bucket5
      (fst (getOrCreateState bucket5 "user-1" 0 Memory.empty)) 0 in
  let after := snd (consume bucket5 0 "user-1" 2 Memory.empty) in
  allowed (fst (consume bucket5 0 "user-1" 2 Memory.empty)) = true
  /\ calculateTokens bucket5
       (fst (getOrCreateState bucket5 "user-1" 0 after)) 0
     == current - 2
  /\ remaining (fst (check bucket5 0 "user-1" after))
     = remaining (fst (consume bucket5 0 "user-1" 2 Memory.empty))
  /\ allowed (fst (check bucket5 0 "user-1" after)) = geb (current - 2) 1.
Proof.
  apply (consume_then_check_agrees bucket5 0 "user-1" 2 Memory.empty).
  - reflexivity.
  - reflexivity.
  - discriminate.
  - vm_compute. discriminate.
Defined.

(** [check] predicts [consume]: a [consume] of one token right after a
    [check] is admitted exactly when the [check] said so; if admitted it
    reports one token less than the [check], if rejected it returns the
    very result of the [check]. *)
Theorem check_predicts_consume (this : TokenBucket) (now : number)
    (key : string) (m : MemoryStorage) :
  0 < refillInterval this ->
  let checked := fst (check this now key m) in
  let consumed := fst (consume this now key 1 (snd (check this now key m))) in
  allowed consumed = allowed checked
  /\ (allowed checked = true ->
      remaining consumed = (remaining checked - 1)%Z)
  /\ (allowed checked = false -> consumed = checked).
Proof.
  intros _ checked consumed.
  assert (Hst : fst (getOrCreateState this key now (snd (check this now key m)))
                = fst (getOrCreateState this key now m)).
  { apply memory_state_lookup_ext. rewrite memory_check_store.
    apply memory_get_observe. lra. }
  subst checked consumed.
  rewrite consume_result, consume_outcome_result, Hst, check_result.
  unfold check_outcome.
  set (state := fst (getOrCreateState this key now m)).
  assert (Hlt : ltb (calculateTokens this state now) 1
                = negb (geb (calculateTokens this state now) 1))
    by reflexivity.
  rewrite Hlt.
  destruct (geb (calculateTokens this state now) 1) eqn:Hge;
    cbn [negb allowed remaining buildResult].
  - split; [reflexivity |]. split; [| discriminate]. intros _.
    assert (E : calculateTokens this state now - 1
                == calculateTokens this state now + inject_Z (-1))
      by (change (inject_Z (-1)) with (- (1)); ring).
    unfold floor. rewrite (Qfloor_comp _ _ E).
    apply (floor_shift (calculateTokens this state now) (-1)).
  - split; [reflexivity |]. split; [discriminate | reflexivity].
Qed.

Lemma check_predicts_consume_witness :
  let checked := fst (check bucket5 0 "user-1" Memory.empty) in
  let consumed :=
    fst (consume bucket5 0 "user-1" 1
           (snd (check bucket5 0 "user-1" Memory.empty))) in
  allowed consumed = allowed checked
  /\ (allowed checked = true ->
      remaining consumed = (remaining checked - 1)%Z)
  /\ (allowed checked = false -> consumed = checked).
Proof.
  apply (check_predicts_consume bucket5 0 "user-1" Memory.empty).
  reflexivity.
Defined.

(** ** Keys are independent *)

Lemma memory_consume_other this now key n (m : MemoryStorage) key' :
  key' <> key ->
  store (snd (consume this now key n m)) !! key' = store m !! key'.
Proof.
  intros Hne. rewrite consume_unfold, getOrCreateState_get.
  change (storage_get now key) with (Memory.get now key).
  destruct (consume_outcome this now _ n) as [r [w|]]; cbn [snd].
  - change (storage_set now key) with (Memory.set now key).
    unfold Memory.set. cbn [store].
    rewrite lookup_insert_ne by congruence.
    apply memory_get_other. exact Hne.
  - apply memory_get_other. exact Hne.
Qed.

(** A [consume] on one key changes nothing for another key: its entry in
    the reference store is untouched, and every later [check] or [consume]
    on it returns what it would have returned without the call. *)
Theorem consume_leaves_other_keys (this : TokenBucket) (now : number)
    (key : string) (n : number) (m : MemoryStorage)
    (key' : string) (t n' : number) :
  key' <> key ->
  store (snd (consume this now key n m)) !! key' = store m !! key'
  /\ fst (check this t key' (snd (consume this now key n m)))
     = fst (check this t key' m)
  /\ fst (consume this t key' n' (snd (consume this now key n m)))
     = fst (consume this t key' n' m).
Proof.
  intros Hne.
  pose proof (memory_consume_other this now key n m key' Hne) as Hlook.
  assert (Hst : fst (getOrCreateState this key' t
                       (snd (consume this now key n m)))
                = fst (getOrCreateState this key' t m)).
  { apply memory_state_lookup_ext, memory_get_lookup_ext. exact Hlook. }
  split; [exact Hlook |]. split.
  - rewrite !check_result, Hst. reflexivity.
  - rewrite !consume_result, Hst. reflexivity.
Qed.

Lemma consume_leaves_other_keys_witness :
  store (snd (consume bucket5 0 "user-1" 5 Memory.empty)) !! "user-2"
  = store Memory.empty !! "user-2"
  /\ fst (check bucket5 100 "user-2"
            (snd (consume bucket5 0 "user-1" 5 Memory.empty)))
     = fst (check bucket5 100 "user-2" Memory.empty)
  /\ fst (consume bucket5 100 "user-2" 1
            (snd (consume bucket5 0 "user-1" 5 Memory.empty)))
     = fst (consume bucket5 100 "user-2" 1 Memory.empty).
Proof.
  apply (consume_leaves_other_keys bucket5 0 "user-1" 5 Memory.empty
           "user-2" 100 1).
  discriminate.
Defined.

(** ** The results stay within the bucket *)

Section RemainingFacts.

Context {S : Type} `{StorageAdapter S}.
Variable this : TokenBucket.

(** Every [remaining] reported by [check] or [consume] lies between 0 and
    the capacity (floored), for a loaded state with [0 <= tokens] and
    [lastRefill <= now] and a requested amount that is not negative. *)
Theorem remaining_within_bounds (now : number) (key : string) (n : number)
    (storage : S) (r : RateLimitResult) :
  0 < refillInterval this -> 0 <= refillRate this -> 0 <= capacity this ->
  0 <= tokens (fst (getOrCreateState this key now storage)) ->
  lastRefill (fst (getOrCreateState this key now storage)) <= now ->
  0 <= n ->
  r = fst (check this now key storage)
  \/ r = fst (consume this now key n storage) ->
  (0 <= remaining r <= floor (capacity this))%Z.
Proof.
  intros Hint Hrate Hcap Htok Hlr Hn Hr.
  set (state := fst (getOrCreateState this key now storage)) in *.
  pose proof (calculateTokens_nonnegative this state now Hint Hrate Hcap
                Htok Hlr) as Hlo.
  pose proof (calculateTokens_le_capacity this state now) as Hhi.
  assert (Hv : exists v, remaining r = floor v /\ 0 <= v <= capacity this).
  { destruct Hr as [-> | ->].
    - rewrite check_result. fold state. unfold check_outcome.
      cbn [remaining buildResult]. eauto.
    - rewrite consume_result, consume_outcome_result. fold state.
      cbn [remaining buildResult].
      destruct (ltb (calculateTokens this state now) n) eqn:Hlt.
      + eauto.
      + apply ltb_ge in Hlt. eexists. split; [reflexivity |]. split; lra. }
  destruct Hv as (v & -> & Hv0 & Hv1). unfold floor. split.
  - change 0%Z with (Qfloor 0). apply Qfloor_resp_le. exact Hv0.
  - apply Qfloor_resp_le. exact Hv1.
Qed.

End RemainingFacts.

Lemma remaining_within_bounds_witness :
  (0 <= remaining (fst (consume bucket5 500 "user-1" 1 exhausted_store))
   <= floor (capacity bucket5))%Z.
Proof.
  apply (remaining_within_bounds bucket5 500 "user-1" 1 exhausted_store).
  - reflexivity.
  - discriminate.
  - discriminate.
  - vm_compute. discriminate.
  - vm_compute. discriminate.
  - discriminate.
  - right. reflexivity.
Defined.

(** ** The rate limit *)

Lemma stepped_budget_mono this start t1 t2 :
  0 < refillInterval this -> 0 <= refillRate this -> t1 <= t2 ->
  stepped_budget this start t1 <= stepped_budget this start t2.
Proof.
  intros Hint Hrate Hle. unfold stepped_budget, ofZ.
  assert (Hk : (floor ((t1 - start) / refillInterval this)
                <= floor ((t2 - start) / refillInterval this))%Z).
  { unfold floor. apply Qfloor_resp_le, div_le_compat; [exact Hint | lra]. }
  rewrite Zle_Qle in Hk.
  destruct (Qle_lt_or_eq _ _ Hrate) as [Hpos | Hz].
  - apply Qmult_le_r; assumption.
  - rewrite <- Hz. lra.
Qed.

Lemma stepped_budget_nonneg this start t :
  0 < refillInterval this -> 0 <= refillRate this -> start <= t ->
  0 <= stepped_budget this start t.
Proof.
  intros Hint Hrate Hle. unfold stepped_budget, ofZ.
  apply Qmult_le_0_compat; [| exact Hrate].
  change 0 with (inject_Z 0). rewrite <- Zle_Qle. apply floor_nonneg.
  apply Qle_shift_div_l; [exact Hint | lra].
Qed.

Lemma stepped_budget_refill this start state now :
  0 < refillInterval this ->
  stepped_budget this start (calculateLastRefill this state now)
  == stepped_budget this start (lastRefill state)
     + ofZ (intervalsElapsed this state now) * refillRate this.
Proof.
  intros Hint. unfold stepped_budget, calculateLastRefill.
  fold (intervalsElapsed this state now). unfold ofZ.
  assert (Hne : ~ refillInterval this == 0)
    by (intro E; rewrite E in Hint; discriminate).
  assert (E : (lastRefill state
               + inject_Z (intervalsElapsed this state now)
                 * refillInterval this - start) / refillInterval this
              == (lastRefill state - start) / refillInterval this
                 + inject_Z (intervalsElapsed this state now))
    by (field; exact Hne).
  unfold floor at 1. rewrite (Qfloor_comp _ _ E).
  fold (floor ((lastRefill state - start) / refillInterval this
               + inject_Z (intervalsElapsed this state now))).
  rewrite floor_shift, inject_Z_plus. ring.
Qed.

Lemma calculateTokens_le_added this state now :
  calculateTokens this state now
  <= tokens state + ofZ (intervalsElapsed this state now) * refillRate this.
Proof. unfold calculateTokens. apply Q.le_min_r. Qed.

Lemma mock_state this now key (m : MockStorage) :
  getOrCreateState this key now m
  = (default (fresh_state this now) (mock_store m !! key), m).
Proof. rewrite getOrCreateState_get. reflexivity. Qed.

Lemma mock_check this now key (m : MockStorage) :
  snd (check this now key m) = m.
Proof. rewrite check_unfold, mock_state. reflexivity. Qed.

Lemma mock_consume this now key n (m : MockStorage) :
  consume this now key n m
  = match consume_outcome this now
            (default (fresh_state this now) (mock_store m !! key)) n with
    | (r, None) => (r, m)
    | (r, Some w) => (r, Mock.set now key w (ttlMs this) m)
    end.
Proof. rewrite consume_unfold, mock_state. reflexivity. Qed.

Lemma mock_account_loaded this key start now c m :
  0 < refillInterval this -> 0 <= refillRate this -> 0 <= capacity this ->
  start <= now ->
  mock_account this key start now c m ->
  let st := default (fresh_state this now) (mock_store m !! key) in
  0 <= tokens st /\ lastRefill st <= now
  /\ c + tokens st <= capacity this + stepped_budget this start (lastRefill st).
Proof.
  intros Hint Hrate Hcap Hstart Hacc. unfold mock_account in Hacc.
  destruct (mock_store m !! key) as [st|]; simpl; [exact Hacc |].
  pose proof (stepped_budget_nonneg this start now Hint Hrate Hstart).
  repeat split; lra.
Qed.

Lemma mock_granted_account this key start :
  0 < refillInterval this -> 0 <= refillRate this -> 0 <= capacity this ->
  forall ops now c (m : MockStorage),
    Forall nonnegative_advance ops ->
    start <= now ->
    mock_account this key start now c m ->
    c + granted key ops (fst (run this ops now m))
    <= capacity this + stepped_budget this start (clock_after ops now).
Proof.
  intros Hint Hrate Hcap.
  induction ops as [| op ops IH]; intros now c m Hops Hstart Hacc.
  - cbn [run fst granted clock_after].
    unfold mock_account in Hacc.
    destruct (mock_store m !! key) as [st|].
    + destruct Hacc as (Htok & Hlr & Hsum).
      pose proof (stepped_budget_mono this start _ _ Hint Hrate Hlr). lra.
    + pose proof (stepped_budget_nonneg this start now Hint Hrate Hstart).
      lra.
  - apply Forall_cons in Hops. destruct Hops as [Hop Hops].
    destruct op as [k | k n | ms]; cbn [run clock_after].
    + (* check *)
      destruct (check this now k m) as [r m1] eqn:E.
      assert (Hm1 : m1 = m)
        by (rewrite <- (mock_check this now k m), E; reflexivity).
      subst m1. specialize (IH now c m Hops Hstart Hacc).
      destruct (run this ops now m) as [rs m2]. exact IH.
    + (* consume *)
      rewrite mock_consume.
      pose proof (mock_account_loaded this key start now c m Hint Hrate Hcap
                    Hstart Hacc) as Hloaded.
      destruct (decide (k = key)) as [-> | Hne].
      * set (st := default (fresh_state this now) (mock_store m !! key)) in *.
        cbn zeta in Hloaded. destruct Hloaded as (Htok & Hlr & Hsum).
        unfold consume_outcome.
        destruct (ltb (calculateTokens this st now) n) eqn:Hlt.
        -- specialize (IH now c m Hops Hstart Hacc).
           destruct (run this ops now m) as [rs m2].
           cbn [fst granted allowed buildResult] in *. lra.
        -- apply ltb_ge in Hlt.
           set (w := {| tokens := calculateTokens this st now - n;
                        lastRefill := calculateLastRefill this st now |}).
           assert (Hacc' : mock_account this key start now (c + n)
                             (Mock.set now key w (ttlMs this) m)).
           { unfold mock_account, Mock.set. cbn [mock_store].
             rewrite lookup_insert_eq. subst w. cbn [tokens lastRefill].
             destruct (calculateLastRefill_bracket this st now Hint)
               as [Hle _].
             pose proof (calculateTokens_le_added this st now).
             pose proof (stepped_budget_refill this start st now Hint).
             repeat split; lra. }
           specialize (IH now (c + n) _ Hops Hstart Hacc').
           destruct (run this ops now (Mock.set now key w (ttlMs this) m))
             as [rs m2].
           cbn [fst granted allowed buildResult] in *.
           destruct (decide (key = key)) as [_ | Hbad]; [lra | congruence].
      * assert (Hacc' : forall w,
                  mock_account this key start now c
                    (Mock.set now k w (ttlMs this) m)).
        { intros w. unfold mock_account, Mock.set. cbn [mock_store].
          rewrite lookup_insert_ne by exact Hne. exact Hacc. }
        destruct (consume_outcome this now
                    (default (fresh_state this now) (mock_store m !! k)) n)
          as [r [w|]].
        -- specialize (IH now c _ Hops Hstart (Hacc' w)).
           destruct (run this ops now (Mock.set now k w (ttlMs this) m))
             as [rs m2].
           cbn [fst granted] in *.
           destruct (decide (k = key)) as [Hbad | _]; [congruence |].
           destruct (allowed r); lra.
        -- specialize (IH now c m Hops Hstart Hacc).
           destruct (run this ops now m) as [rs m2].
           cbn [fst granted] in *.
           destruct (decide (k = key)) as [Hbad | _]; [congruence |].
           destruct (allowed r); lra.
    + (* the clock moves on *)
      simpl in Hop. apply IH; [exact Hops | lra |].
      unfold mock_account in *.
      destruct (mock_store m !! key) as [st|]; [| exact Hacc].
      destruct Hacc as (Htok & Hlr & Hsum). repeat split; lra.
Qed.

(** The rate limit, on a store that keeps its entries.  Whatever the
    session (any keys, any amounts; the clock does not run backwards), the
    tokens granted on a key are at most the capacity plus the refill rate
    for every whole interval between the start and the end of the session. *)
Theorem granted_within_rate_limit (this : TokenBucket) (key : string)
    (ops : list Op) (start : number) :
  0 < refillInterval this -> 0 <= refillRate this -> 0 <= capacity this ->
  Forall nonnegative_advance ops ->
  granted key ops (fst (run this ops start (mkMock ∅)))
  <= capacity this
     + ofZ (floor ((clock_after ops start - start) / refillInterval this))
       * refillRate this.
Proof.
  intros Hint Hrate Hcap Hops.
  pose proof (mock_granted_account this key start Hint Hrate Hcap ops start 0
                (mkMock ∅) Hops) as Hmain.
  unfold stepped_budget in Hmain.
  assert (Hacc : mock_account this key start start 0 (mkMock ∅)).
  { unfold mock_account. cbn [mock_store]. rewrite lookup_empty. lra. }
  specialize (Hmain ltac:(lra) Hacc). lra.
Qed.

Lemma granted_within_rate_limit_witness :
  granted "user-1"
    [OpConsume "user-1" 3; OpConsume "user-1" 3; OpConsume "user-2" 1;
     OpAdvance 2500; OpCheck "user-1"; OpConsume "user-1" 4;
     OpConsume "user-1" 1]
    (fst (run bucket5
            [OpConsume "user-1" 3; OpConsume "user-1" 3; OpConsume "user-2" 1;
             OpAdvance 2500; OpCheck "user-1"; OpConsume "user-1" 4;
             OpConsume "user-1" 1]
            0 (mkMock ∅)))
  <= capacity bucket5
     + ofZ (floor ((clock_after
                      [OpConsume "user-1" 3; OpConsume "user-1" 3;
                       OpConsume "user-2" 1; OpAdvance 2500; OpCheck "user-1";
                       OpConsume "user-1" 4; OpConsume "user-1" 1] 0 - 0)
                   / refillInterval bucket5))
       * refillRate bucket5.
Proof.
  apply (granted_within_rate_limit bucket5 "user-1").
  - reflexivity.
  - discriminate.
  - discriminate.
  - repeat constructor; simpl; discriminate.
Defined.

(** In that session seven tokens are granted on ["user-1"], the most the
    limit allows after 2.5 intervals. *)
Example granted_in_session :
  granted "user-1"
    [OpConsume "user-1" 3; OpConsume "user-1" 3; OpConsume "user-2" 1;
     OpAdvance 2500; OpCheck "user-1"; OpConsume "user-1" 4;
     OpConsume "user-1" 1]
    (fst (run bucket5
            [OpConsume "user-1" 3; OpConsume "user-1" 3; OpConsume "user-2" 1;
             OpAdvance 2500; OpCheck "user-1"; OpConsume "user-1" 4;
             OpConsume "user-1" 1]
            0 (mkMock ∅)))
  == 7.
Proof. vm_compute. reflexivity. Qed.

(** ** The rate limit on the reference store *)

Lemma continuous_budget_mono this start t1 t2 :
  0 < refillInterval this -> 0 <= refillRate this -> t1 <= t2 ->
  continuous_budget this start t1 <= continuous_budget this start t2.
Proof.
  intros Hint Hrate Hle. unfold continuous_budget.
  assert (Hq : (t1 - start) / refillInterval this
               <= (t2 - start) / refillInterval this)
    by (apply div_le_compat; [exact Hint | lra]).
  destruct (Qle_lt_or_eq _ _ Hrate) as [Hpos | Hz].
  - apply Qmult_le_r; assumption.
  - rewrite <- Hz. lra.
Qed.

Lemma continuous_budget_start this start : continuous_budget this start start == 0.
Proof. unfold continuous_budget, Qdiv. ring. Qed.

Lemma continuous_budget_refill this start state now :
  0 < refillInterval this ->
  continuous_budget this start (calculateLastRefill this state now)
  == continuous_budget this start (lastRefill state)
     + ofZ (intervalsElapsed this state now) * refillRate this.
Proof.
  intros Hint. unfold continuous_budget, calculateLastRefill.
  fold (intervalsElapsed this state now). unfold ofZ.
  field. intro E. rewrite E in Hint. discriminate.
Qed.

Lemma continuous_budget_ttl this start t now :
  0 < refillInterval this -> 0 <= refillRate this ->
  capacity this * refillInterval this <= ttlMs this * refillRate this ->
  t + ttlMs this <= now ->
  continuous_budget this start t + capacity this
  <= continuous_budget this start now.
Proof.
  intros Hint Hrate Hpay Hexp.
  pose proof (continuous_budget_mono this start _ _ Hint Hrate Hexp) as Hmono.
  assert (Hne : ~ refillInterval this == 0)
    by (intro E; rewrite E in Hint; discriminate).
  assert (E : continuous_budget this start (t + ttlMs this)
              == continuous_budget this start t
                 + ttlMs this * refillRate this / refillInterval this)
    by (unfold continuous_budget; field; exact Hne).
  assert (Hcap : capacity this
                 <= ttlMs this * refillRate this / refillInterval this)
    by (apply Qle_shift_div_l; assumption).
  lra.
Qed.

Lemma memory_consume this now key n (m : MemoryStorage) :
  consume this now key n m
  = match consume_outcome this now
            (default (fresh_state this now) (fst (Memory.get now key m))) n
    with
    | (r, None) => (r, snd (Memory.get now key m))
    | (r, Some w) =>
        (r, Memory.set now key w (ttlMs this) (snd (Memory.get now key m)))
    end.
Proof. rewrite consume_unfold, getOrCreateState_get. reflexivity. Qed.

Section MemoryAccount.

Variable this : TokenBucket.
Variable key : string.
Variable start : number.
Hypothesis Hint : 0 < refillInterval this.
Hypothesis Hrate : 0 <= refillRate this.
Hypothesis Hcap : 0 <= capacity this.
Hypothesis Hpay :
  capacity this * refillInterval this <= ttlMs this * refillRate this.

Lemma memory_account_get now c (m : MemoryStorage) :
  memory_account this key start now c m ->
  memory_account this key start now c (snd (Memory.get now key m)).
Proof.
  intros Hacc. unfold Memory.get.
  destruct (store m !! key) as [entry|] eqn:E; [| exact Hacc].
  destruct (leb (expiresAt entry) now) eqn:Hexp; [| exact Hacc].
  apply leb_le in Hexp. unfold memory_account in *. cbn [snd store].
  rewrite lookup_delete_eq. rewrite E in Hacc.
  destruct Hacc as (Htok & Hlr & Hsum & Hlive).
  assert (Hdue : lastRefill (state entry) + ttlMs this <= now) by lra.
  pose proof (continuous_budget_ttl this start _ now Hint Hrate Hpay Hdue).
  lra.
Qed.

Lemma memory_account_ext now c (m m' : MemoryStorage) :
  store m' !! key = store m !! key ->
  memory_account this key start now c m ->
  memory_account this key start now c m'.
Proof. unfold memory_account. intros ->. exact id. Qed.

Lemma memory_account_loaded now c (m : MemoryStorage) :
  memory_account this key start now c m ->
  let st := default (fresh_state this now) (fst (Memory.get now key m)) in
  0 <= tokens st /\ lastRefill st <= now
  /\ c + tokens st
     <= capacity this + continuous_budget this start (lastRefill st).
Proof.
  intros Hacc. pose proof (memory_account_get now c m Hacc) as Hacc'.
  unfold Memory.get in *. unfold memory_account in Hacc.
  destruct (store m !! key) as [entry|] eqn:E.
  - destruct (leb (expiresAt entry) now) eqn:Hexp.
    + unfold memory_account in Hacc'. cbn [snd store] in Hacc'.
      rewrite lookup_delete_eq in Hacc'. simpl. repeat split; lra.
    + simpl. destruct Hacc as (Htok & Hlr & Hsum & _). repeat split; lra.
  - simpl. repeat split; lra.
Qed.

Lemma memory_account_later now now' c (m : MemoryStorage) :
  now <= now' ->
  memory_account this key start now c m ->
  memory_account this key start now' c m.
Proof.
  intros Hle. unfold memory_account.
  destruct (store m !! key) as [entry|].
  - intros (Htok & Hlr & Hsum & Hlive). repeat split; lra.
  - intros Hc.
    pose proof (continuous_budget_mono this start _ _ Hint Hrate Hle). lra.
Qed.

Lemma memory_granted_account :
  forall ops now c (m : MemoryStorage),
    Forall nonnegative_advance ops ->
    memory_account this key start now c m ->
    c + granted key ops (fst (run this ops now m))
    <= capacity this + continuous_budget this start (clock_after ops now).
Proof.
  induction ops as [| op ops IH]; intros now c m Hops Hacc.
  - cbn [run fst granted clock_after]. unfold memory_account in Hacc.
    destruct (store m !! key) as [entry|].
    + destruct Hacc as (Htok & Hlr & Hsum & _).
      pose proof (continuous_budget_mono this start _ _ Hint Hrate Hlr). lra.
    + lra.
  - apply Forall_cons in Hops. destruct Hops as [Hop Hops].
    destruct op as [k | k n | ms]; cbn [run clock_after].
    + (* check *)
      destruct (check this now k m) as [r m1] eqn:E.
      assert (Hm1 : m1 = snd (Memory.get now k m))
        by (rewrite <- (memory_check_store this now k m), E; reflexivity).
      assert (Hacc1 : memory_account this key start now c m1).
      { subst m1. destruct (decide (k = key)) as [-> | Hne].
        - apply memory_account_get. exact Hacc.
        - apply (memory_account_ext now c m); [| exact Hacc].
          apply memory_get_other. congruence. }
      specialize (IH now c m1 Hops Hacc1).
      destruct (run this ops now m1) as [rs m2]. exact IH.
    + (* consume *)
      rewrite memory_consume.
      destruct (decide (k = key)) as [-> | Hne].
      * pose proof (memory_account_loaded now c m Hacc) as Hloaded.
        set (st := default (fresh_state this now)
                     (fst (Memory.get now key m))) in *.
        cbn zeta in Hloaded. destruct Hloaded as (Htok & Hlr & Hsum).
        unfold consume_outcome.
        destruct (ltb (calculateTokens this st now) n) eqn:Hlt.
        -- specialize (IH now c _ Hops (memory_account_get now c m Hacc)).
           destruct (run this ops now (snd (Memory.get now key m)))
             as [rs m2].
           cbn [fst granted allowed buildResult] in *. lra.
        -- apply ltb_ge in Hlt.
           set (w := {| tokens := calculateTokens this st now - n;
                        lastRefill := calculateLastRefill this st now |}).
           assert (Hacc' : memory_account this key start now (c + n)
                             (Memory.set now key w (ttlMs this)
                                (snd (Memory.get now key m)))).
           { unfold memory_account, Memory.set. cbn [store].
             rewrite lookup_insert_eq. subst w.
             cbn [state expiresAt tokens lastRefill].
             destruct (calculateLastRefill_bracket this st now Hint)
               as [Hle _].
             pose proof (calculateTokens_le_added this st now).
             pose proof (continuous_budget_refill this start st now Hint).
             repeat split; lra. }
           specialize (IH now (c + n) _ Hops Hacc').
           destruct (run this ops now
                       (Memory.set now key w (ttlMs this)
                          (snd (Memory.get now key m)))) as [rs m2].
           cbn [fst granted allowed buildResult] in *.
           destruct (decide (key = key)) as [_ | Hbad]; [lra | congruence].
      * assert (Hget : memory_account this key start now c
                         (snd (Memory.get now k m))).
        { apply (memory_account_ext now c m); [| exact Hacc].
          apply memory_get_other. congruence. }
        assert (Hset : forall w,
                  memory_account this key start now c
                    (Memory.set now k w (ttlMs this)
                       (snd (Memory.get now k m)))).
        { intros w.
          apply (memory_account_ext now c (snd (Memory.get now k m)));
            [| exact Hget].
          unfold Memory.set. cbn [store]. apply lookup_insert_ne.
          exact Hne. }
        destruct (consume_outcome this now
                    (default (fresh_state this now)
                       (fst (Memory.get now k m))) n) as [r [w|]].
        -- specialize (IH now c _ Hops (Hset w)).
           destruct (run this ops now
                       (Memory.set now k w (ttlMs this)
                          (snd (Memory.get now k m)))) as [rs m2].
           cbn [fst granted] in *.
           destruct (decide (k = key)) as [Hbad | _]; [congruence |].
           destruct (allowed r); lra.
        -- specialize (IH now c _ Hops Hget).
           destruct (run this ops now (snd (Memory.get now k m)))
             as [rs m2].
           cbn [fst granted] in *.
           destruct (decide (k = key)) as [Hbad | _]; [congruence |].
           destruct (allowed r); lra.
    + (* the clock moves on *)
      simpl in Hop. apply IH; [exact Hops |].
      apply (memory_account_later now); [lra | exact Hacc].
Qed.

End MemoryAccount.

(** The rate limit, on the reference store with its expiry.  For a limiter
    built from positive options, whatever the session (any keys, any
    amounts; the clock does not run backwards), the tokens granted on a key
    are at most the capacity plus what refilling at [refillRate] per
    [refillInterval] yields over the length of the session. *)
Theorem granted_within_rate_on_memory (options : RateLimiterOptions)
    (key : string) (ops : list Op) (start : number) :
  valid_options options ->
  Forall nonnegative_advance ops ->
  let this := TokenBucket_new options in
  granted key ops (fst (run this ops start Memory.empty))
  <= capacity this
     + (clock_after ops start - start) / refillInterval this
       * refillRate this.
Proof.
  intros Hvalid Hops this.
  pose proof (ttl_pays_capacity options Hvalid) as Hpay. fold this in Hpay.
  destruct Hvalid as (Hcap & Hrate & Hint).
  pose proof (memory_granted_account this key start Hint
                (Qlt_le_weak _ _ Hrate) (Qlt_le_weak _ _ Hcap) Hpay
                ops start 0 Memory.empty Hops) as Hmain.
  assert (Hacc : memory_account this key start start 0 Memory.empty).
  { unfold memory_account. cbn [store Memory.empty]. rewrite lookup_empty.
    pose proof (continuous_budget_start this start). lra. }
  specialize (Hmain Hacc). unfold continuous_budget in Hmain. lra.
Qed.

Lemma granted_within_rate_on_memory_witness :
  let this := TokenBucket_new (mkOptions 1 5 1000) in
  granted "user-1"
    [OpConsume "user-1" 1; OpAdvance 400; OpConsume "user-1" 1;
     OpConsume "user-1" 1]
    (fst (run this
            [OpConsume "user-1" 1; OpAdvance 400; OpConsume "user-1" 1;
             OpConsume "user-1" 1]
            0 Memory.empty))
  <= capacity this
     + (clock_after
          [OpConsume "user-1" 1; OpAdvance 400; OpConsume "user-1" 1;
           OpConsume "user-1" 1] 0 - 0) / refillInterval this
       * refillRate this.
Proof.
  apply (granted_within_rate_on_memory (mkOptions 1 5 1000) "user-1").
  - repeat split.
  - repeat constructor; simpl; discriminate.
Defined.

(** On the reference store the limit by whole intervals does not hold: a
    bucket of one refilled by five grants two tokens within 400 ms. *)
Example granted_on_memory_exceeds_steps :
  granted "user-1"
    [OpConsume "user-1" 1; OpAdvance 400; OpConsume "user-1" 1;
     OpConsume "user-1" 1]
    (fst (run burst1
            [OpConsume "user-1" 1; OpAdvance 400; OpConsume "user-1" 1;
             OpConsume "user-1" 1]
            0 Memory.empty))
  == 2
  /\ capacity burst1 + stepped_budget burst1 0 400 == 1.
Proof. vm_compute. split; reflexivity. Qed.

(** ** More of the reference store *)

(** The life of an entry.  After [set] at [now] with [ttlMs] (over whatever
    was stored for the key before, with whatever TTL), [get] returns the
    state at every instant before [now + ttlMs] and leaves the store as it
    is; from [now + ttlMs] on it returns absent and the entry is gone. *)
Theorem memory_entry_lifetime (m : MemoryStorage) (key : string)
    (old new : BucketState) (now0 ttl0 now ttlMs t : number) :
  let m' := Memory.set now key new ttlMs (Memory.set now0 key old ttl0 m) in
  (t < now + ttlMs -> Memory.get t key m' = (Some new, m'))
  /\ (now + ttlMs <= t ->
      fst (Memory.get t key m') = None
      /\ store (snd (Memory.get t key m')) !! key = None).
Proof.
  intros m'.
  assert (Hlook : store m' !! key
                  = Some {| state := new; expiresAt := now + ttlMs |})
    by (subst m'; unfold Memory.set; cbn [store]; apply lookup_insert_eq).
  split.
  - intros Hlive. apply (memory_get_live t key m' _ Hlook). exact Hlive.
  - intros Hdead. rewrite (memory_get_expired t key m' _ Hlook Hdead).
    cbn [fst snd store]. split; [reflexivity | apply lookup_delete_eq].
Qed.

(** The entry of the suite's TTL test, overwritten once. *)
Example memory_entry_overwritten :
  let m := Memory.set 1000 "key-1" (mkBucketState 3 1000) 3000
             (Memory.set 0 "key-1" (mkBucketState 5 0) 10000 Memory.empty) in
  fst (Memory.get 3999 "key-1" m) = Some (mkBucketState 3 1000)
  /\ fst (Memory.get 4000 "key-1" m) = None.
Proof. vm_compute. split; reflexivity. Qed.

(** [delete] removes the entry of its key and nothing else: the key reads
    as absent at every instant, every other key reads as before, and
    deleting a key that has no entry leaves the store as it is. *)
Theorem memory_delete_removes (m : MemoryStorage) (key : string)
    (now t : number) :
  fst (Memory.get t key (Memory.delete now key m)) = None
  /\ (forall key', key' <> key ->
        fst (Memory.get t key' (Memory.delete now key m))
        = fst (Memory.get t key' m))
  /\ (store m !! key = None -> Memory.delete now key m = m)
  /\ (Memory.size (Memory.delete now key m) <= Memory.size m)%nat.
Proof.
  split; [| split; [| split]].
  - rewrite memory_get_absent; [reflexivity |].
    unfold Memory.delete. cbn [store]. apply lookup_delete_eq.
  - intros key' Hne. apply memory_get_lookup_ext.
    unfold Memory.delete. cbn [store]. apply lookup_delete_ne. congruence.
  - intros Habsent. destruct m as [table]. unfold Memory.delete.
    cbn [store] in *. f_equal. apply delete_id. exact Habsent.
  - unfold Memory.size, Memory.delete. cbn [store].
    apply map_subseteq_size, delete_subseteq.
Qed.

(** The sweep removes the expired entries and only those: an entry is in
    the swept store exactly when it was stored and is not expired; the
    store does not grow; and no later read of any key, nor any later answer
    of the limiter, is changed by it. *)
Theorem memory_cleanup_sweeps (this : TokenBucket) (m : MemoryStorage)
    (now : number) :
  (forall key entry,
     store (Memory.cleanup now m) !! key = Some entry
     <-> store m !! key = Some entry /\ now < expiresAt entry)
  /\ (Memory.size (Memory.cleanup now m) <= Memory.size m)%nat
  /\ (forall key t n, now <= t ->
        fst (Memory.get t key (Memory.cleanup now m))
        = fst (Memory.get t key m)
        /\ fst (check this t key (Memory.cleanup now m))
           = fst (check this t key m)
        /\ fst (consume this t key n (Memory.cleanup now m))
           = fst (consume this t key n m)).
Proof.
  split; [| split].
  - intros key entry. rewrite memory_cleanup_lookup.
    destruct (store m !! key) as [e|]; [| split; [discriminate | tauto]].
    destruct (leb (expiresAt e) now) eqn:Hexp.
    + apply leb_le in Hexp. split; [discriminate |].
      intros [[= ->] Hlive]. lra.
    + apply leb_gt in Hexp. split.
      * intros [= ->]. split; [reflexivity | exact Hexp].
      * intros [Hsome _]. exact Hsome.
  - unfold Memory.size, Memory.cleanup. cbn [store].
    apply map_subseteq_size, map_filter_subseteq.
  - intros key t n Ht.
    pose proof (memory_cleanup_observe now key m t Ht) as Hget.
    pose proof (memory_state_lookup_ext this t key _ _ Hget) as Hst.
    split; [exact Hget |]. split.
    + rewrite !check_result, Hst. reflexivity.
    + rewrite !consume_result, Hst. reflexivity.
Qed.

(** The sweep of the suite: of two entries the expired one goes. *)
Example memory_cleanup_two_entries :
  let m := Memory.set 0 "key-2" (mkBucketState 3 0) 100000
             (Memory.set 0 "key-1" (mkBucketState 5 0) 5000 Memory.empty) in
  Memory.size m = 2%nat
  /\ Memory.size (Memory.cleanup 60000 m) = 1%nat
  /\ fst (Memory.get 60000 "key-2" (Memory.cleanup 60000 m))
     = Some (mkBucketState 3 0).
Proof. vm_compute. repeat split. Qed.

(** ** [destroy] of the facade *)

(** A limiter built over a custom store never tears it down: after any
    call, [destroy] leaves the limiter and its store as they are.  A
    limiter built without one owns a reference store, which [destroy]
    empties: every key then reads as a full bucket again. *)
Theorem facade_destroy_owned_only {S : Type} `{StorageAdapter S}
    (config : RateLimiterConfig S) (limiter : RateLimiter S)
    (now : number) (key : string) (n : number) :
  RateLimiter_new config = Normal limiter ->
  let used := snd (RateLimiter_consume limiter now key n) in
  match cfg_storage config with
  | Some custom =>
      RateLimiter_destroy used = used
      /\ storage limiter = inl custom
  | None =>
      storage (RateLimiter_destroy used) = inr Memory.empty
      /\ forall key' t,
           fst (RateLimiter_check (RateLimiter_destroy used) t key')
           = check_outcome (algorithm limiter) t
               (fresh_state (algorithm limiter) t)
  end.
Proof.
  intros Hnew used. subst used. unfold RateLimiter_new in Hnew.
  destruct (cfg_storage config) as [custom|];
    injection Hnew as <-; unfold RateLimiter_consume; cbn [algorithm storage
      ownsStorage].
  - destruct (consume _ now key n (inl custom)) as [r s] eqn:E.
    cbn [snd]. split; reflexivity.
  - destruct (consume _ now key n (inr Memory.empty)) as [r s] eqn:E.
    cbn [snd].
    assert (Hs : exists m', s = inr m').
    { rewrite consume_unfold, getOrCreateState_get in E.
      cbn [storage_get sum_adapter storage_set] in E.
      destruct (storage_get now key Memory.empty) as [o m1].
      cbn [fst snd] in E.
      destruct (consume_outcome _ now _ n) as [r' [w|]];
        injection E as _ <-; eauto. }
    destruct Hs as [m' ->].
    unfold RateLimiter_destroy. cbn [ownsStorage storage algorithm].
    split; [reflexivity |]. intros key' t.
    unfold RateLimiter_check. cbn [algorithm storage].
    rewrite check_unfold, getOrCreateState_get. reflexivity.
Qed.

Lemma facade_destroy_owned_only_witness :
  let limiter :=
    {| algorithm := bucket5; storage := inr Memory.empty;
       ownsStorage := true |} : RateLimiter MemoryStorage in
  let used := snd (RateLimiter_consume limiter 0 "user-1" 5) in
  storage (RateLimiter_destroy used) = inr Memory.empty
  /\ forall key' t,
       fst (RateLimiter_check (RateLimiter_destroy used) t key')
       = check_outcome (algorithm limiter) t
           (fresh_state (algorithm limiter) t).
Proof.
  apply (facade_destroy_owned_only
           (mkConfig (mkOptions 5 1 1000) (@None MemoryStorage))
           {| algorithm := bucket5; storage := inr Memory.empty;
              ownsStorage := true |} 0 "user-1" 5).
  reflexivity.
Defined.

(** ** The Express adapter *)

Section AdapterFacts.

Context {S : Type} `{StorageAdapter S}.
Variable String_ : number -> string.

Lemma consume_result_shape (this : TokenBucket) now key n (storage : S) :
  exists t state,
    fst (consume this now key n storage)
    = buildResult this (allowed (fst (consume this now key n storage))) t
        (calculateLastRefill this state now) now.
Proof.
  rewrite consume_result, consume_outcome_result. cbn [allowed buildResult].
  eauto.
Qed.

Lemma consume_retryAfter (this : TokenBucket) now key n (storage : S) :
  0 < refillInterval this ->
  let r := fst (consume this now key n storage) in
  (allowed r = true /\ retryAfter r = None)
  \/ (allowed r = false
      /\ exists seconds, (0 < seconds)%Z /\ retryAfter r = Some seconds).
Proof.
  intros Hint r.
  destruct (consume_result_shape this now key n storage) as (t & state & Hr).
  fold r in Hr.
  pose proof (calculateRetryAfter_positive this state now Hint) as Hpos.
  rewrite Hr. rewrite buildResult_retryAfter, buildResult_allowed.
  destruct (allowed r); [left | right]; split; eauto.
Qed.

Lemma setRateLimitHeaders_status_body res result capacity :
  statusCode (setRateLimitHeaders String_ res result capacity) = statusCode res
  /\ body (setRateLimitHeaders String_ res result capacity) = body res.
Proof.
  unfold setRateLimitHeaders.
  destruct (negb (allowed result)), (retryAfter result); split; reflexivity.
Qed.

(** The headers of a result of [consume].  The limit, the remaining count
    and the reset time in seconds are always set; [Retry-After] is set, to
    a positive number of seconds, exactly when the request was rejected,
    and is left as it was otherwise; status and body are not touched. *)
Theorem rate_limit_headers_of_consume (this : TokenBucket) (now : number)
    (key : string) (n : number) (storage : S) (res : Response)
    (capacity : number) :
  0 < refillInterval this ->
  let r := fst (consume this now key n storage) in
  let res' := setRateLimitHeaders String_ res r capacity in
  res_headers res' !! "X-RateLimit-Limit" = Some (String_ capacity)
  /\ res_headers res' !! "X-RateLimit-Remaining"
     = Some (String_ (ofZ (remaining r)))
  /\ res_headers res' !! "X-RateLimit-Reset"
     = Some (String_ (ofZ (floor (resetAt r / 1000))))
  /\ (allowed r = true ->
      res_headers res' !! "Retry-After" = res_headers res !! "Retry-After")
  /\ (allowed r = false ->
      exists seconds,
        (0 < seconds)%Z
        /\ res_headers res' !! "Retry-After" = Some (String_ (ofZ seconds)))
  /\ statusCode res' = statusCode res
  /\ body res' = body res.
Proof.
  intros Hint r res'. subst res'. unfold setRateLimitHeaders.
  destruct (consume_retryAfter this now key n storage Hint)
    as [[Ha Hra] | [Ha (seconds & Hpos & Hra)]];
    fold r in Ha, Hra; rewrite Ha, Hra; cbn [negb res_set res_headers
      statusCode body].
  - repeat split; try discriminate.
    + rewrite !lookup_insert_ne by discriminate. apply lookup_insert_eq.
    + rewrite !lookup_insert_ne by discriminate. apply lookup_insert_eq.
    + apply lookup_insert_eq.
    + intros _. rewrite !lookup_insert_ne by discriminate. reflexivity.
  - repeat split; try discriminate.
    + rewrite !lookup_insert_ne by discriminate. apply lookup_insert_eq.
    + rewrite !lookup_insert_ne by discriminate. apply lookup_insert_eq.
    + rewrite !lookup_insert_ne by discriminate. apply lookup_insert_eq.
    + intros _. exists seconds. split; [exact Hpos |].
      apply lookup_insert_eq.
Qed.

End AdapterFacts.

Section MiddlewareFacts.

Context {S : Type} `{StorageAdapter S}.
Variable String_ : number -> string.

(** A request through the middleware with the default rejection handler.
    Either [next()] is called and status and body of the response are as
    they were, or it is not called and the response is a 429 whose body
    carries the error text and a positive [retryAfter].  A skipped request
    changes nothing; with headers switched off a request passed on leaves
    the response as it was.  The handler and the algorithm of the
    middleware are the same afterwards. *)
Theorem middleware_default_outcomes (mw : Middleware S) (now : number)
    (req : Request) (res : Response) :
  0 < refillInterval (algorithm (limiter mw)) ->
  mw_onRateLimited mw = defaultOnRateLimited ->
  let mw' := fst (fst (handle String_ mw now req res)) in
  let res' := snd (fst (handle String_ mw now req res)) in
  let next := snd (handle String_ mw now req res) in
  ((next = true /\ statusCode res' = statusCode res /\ body res' = body res)
   \/ (next = false /\ statusCode res' = 429%Z
       /\ exists seconds,
            (0 < seconds)%Z
            /\ body res'
               = Some [("error", JString "Too Many Requests");
                       ("retryAfter", JNumber (ofZ seconds))]))
  /\ (forall skips, mw_skip mw = Some skips -> skips req = true ->
      mw' = mw /\ res' = res /\ next = true)
  /\ (sendHeaders mw = false -> next = true -> res' = res)
  /\ mw_onRateLimited mw' = mw_onRateLimited mw
  /\ algorithm (limiter mw') = algorithm (limiter mw).
Proof.
  intros Hint Hdefault mw' res' next. subst mw' res' next. unfold handle.
  destruct (match mw_skip mw with
            | Some skip => skip req
            | None => false
            end) eqn:Hskip.
  - cbn [fst snd]. split; [left; repeat split |].
    split; [intros; repeat split |]. repeat split.
  - unfold RateLimiter_consume.
    pose proof (consume_retryAfter (algorithm (limiter mw)) now
                  (mw_keyGenerator mw req) 1 (storage (limiter mw)) Hint)
      as Hretry.
    destruct (consume (algorithm (limiter mw)) now (mw_keyGenerator mw req) 1
                (storage (limiter mw))) as [result storage'].
    cbn [fst snd] in *.
    assert (Hres1 :
              statusCode (if sendHeaders mw
                          then setRateLimitHeaders String_ res result
                                 (mw_capacity mw)
                          else res) = statusCode res
              /\ body (if sendHeaders mw
                       then setRateLimitHeaders String_ res result
                              (mw_capacity mw)
                       else res) = body res).
    { destruct (sendHeaders mw); [| split; reflexivity].
      apply setRateLimitHeaders_status_body. }
    destruct Hres1 as [Hstatus Hbody].
    destruct Hretry as [[Ha Hra] | [Ha (seconds & Hpos & Hra)]]; rewrite Ha;
      cbn [fst snd limiter mw_onRateLimited algorithm].
    + split; [left; repeat split; assumption |].
      split.
      { intros skips Hs Hreq. rewrite Hs, Hreq in Hskip. discriminate. }
      split; [| split; reflexivity].
      intros Hoff _. rewrite Hoff. reflexivity.
    + split.
      { right. rewrite Hdefault. unfold defaultOnRateLimited.
        cbn [res_json res_status statusCode body]. rewrite Hra.
        split; [reflexivity |]. split; [reflexivity |].
        exists seconds. split; [exact Hpos | reflexivity]. }
      split.
      { intros skips Hs Hreq. rewrite Hs, Hreq in Hskip. discriminate. }
      split; [discriminate |]. split; reflexivity.
Qed.

End MiddlewareFacts.

Lemma rate_limit_headers_of_consume_witness :
  let String_ := fun _ : number => "n" in
  let r := fst (consume bucket5 0 "user-1" 6 Memory.empty) in
  let res' := setRateLimitHeaders String_ blank_response r 5 in
  res_headers res' !! "X-RateLimit-Limit" = Some (String_ 5)
  /\ res_headers res' !! "X-RateLimit-Remaining"
     = Some (String_ (ofZ (remaining r)))
  /\ res_headers res' !! "X-RateLimit-Reset"
     = Some (String_ (ofZ (floor (resetAt r / 1000))))
  /\ (allowed r = true ->
      res_headers res' !! "Retry-After"
      = res_headers blank_response !! "Retry-After")
  /\ (allowed r = false ->
      exists seconds,
        (0 < seconds)%Z
        /\ res_headers res' !! "Retry-After" = Some (String_ (ofZ seconds)))
  /\ statusCode res' = statusCode blank_response
  /\ body res' = body blank_response.
Proof.
  apply (rate_limit_headers_of_consume (fun _ : number => "n") bucket5 0
           "user-1" 6 Memory.empty blank_response 5).
  reflexivity.
Defined.

Lemma middleware_default_outcomes_witness :
  let String_ := fun _ : number => "n" in
  let mw' := fst (fst (handle String_ suite_middleware 0 suite_request
                         blank_response)) in
  let res' := snd (fst (handle String_ suite_middleware 0 suite_request
                          blank_response)) in
  let next := snd (handle String_ suite_middleware 0 suite_request
                     blank_response) in
  ((next = true /\ statusCode res' = statusCode blank_response
    /\ body res' = body blank_response)
   \/ (next = false /\ statusCode res' = 429%Z
       /\ exists seconds,
            (0 < seconds)%Z
            /\ body res'
               = Some [("error", JString "Too Many Requests");
                       ("retryAfter", JNumber (ofZ seconds))]))
  /\ (forall skips, mw_skip suite_middleware = Some skips ->
      skips suite_request = true ->
      mw' = suite_middleware /\ res' = blank_response /\ next = true)
  /\ (sendHeaders suite_middleware = false -> next = true ->
      res' = blank_response)
  /\ mw_onRateLimited mw' = mw_onRateLimited suite_middleware
  /\ algorithm (limiter mw') = algorithm (limiter suite_middleware).
Proof.
  apply (middleware_default_outcomes (fun _ : number => "n") suite_middleware
           0 suite_request blank_response).
  - reflexivity.
  - reflexivity.
Defined.

(** The adapter's suite: the middleware it creates, and three requests from
    one address against a capacity of two. *)
Example suite_middleware_created :
  createRateLimitMiddleware
    (mkMiddlewareOptions
       (mkConfig (mkOptions 2 1 1000) (@None MemoryStorage))
       None None None None)
  = Normal suite_middleware.
Proof. reflexivity. Qed.

Example suite_third_request_rejected :
  let String_ := fun _ : number => "n" in
  let '(mw1, res1, next1) :=
    handle String_ suite_middleware 0 suite_request blank_response in
  let '(mw2, res2, next2) := handle String_ mw1 0 suite_request blank_response in
  let '(mw3, res3, next3) := handle String_ mw2 0 suite_request blank_response in
  [next1; next2; next3] = [true; true; false]
  /\ map statusCode [res1; res2; res3] = [200; 200; 429]%Z
  /\ body res3 = Some [("error", JString "Too Many Requests");
                       ("retryAfter", JNumber 1)]
  /\ is_Some (res_headers res3 !! "Retry-After")
  /\ res_headers res2 !! "Retry-After" = None.
Proof. vm_compute. repeat split. eauto. Qed.

(** ** The TTL of every write *)



(** The writes of that session, with their TTL of 3000 ms. *)
Example session_writes_with_ttl :
  writes (calls (snd (run (TokenBucket_new (mkOptions 6 2 500))
                        [OpConsume "user-1" 4; OpAdvance 700;
                         OpConsume "user-2" 1; OpConsume "user-1" 3]
                        0 (mkLogged Memory.empty []))))
  = [("user-1", mkBucketState 2 0, 3000);
     ("user-2", mkBucketState 5 700, 3000);
     ("user-1", mkBucketState 1 500, 3000)].
Proof. vm_compute. reflexivity. Qed.
